(** * Gesture-to-control pipeline of the holographic globe (src/App.tsx) *)

(** A shallow embedding of the detection loop ([renderLoop]), of the render
    tick ([useFrame] in [HolographicEarth]) and of the region bucketing
    ([getRegionFromRotation]), with the properties of the control state
    that the design document lists. *)

(** Numbers.  A TypeScript [number] is modelled as a real number: [+], [-],
    [*], [/], [Math.sqrt], [Math.pow], [Math.max], [Math.min] and [%] are
    the exact operations on [R].  Rounding, infinities and NaN of IEEE-754
    doubles are outside this model.  The module [Ieee] repeats the
    detection loop over numbers that can also be NaN or infinite; the two
    agree on finite numbers ([Ieee_runFrames_agrees]). *)

From Stdlib Require Import Reals Lra Lia ZArith List Ascii String Bool.
Import ListNotations.

Local Open Scope R_scope.

(** ** Data model (src/types.ts) *)

(** [{ x: number; y: number }], the type of [rotation] and [position]. *)
Module XY.
Record t : Type := mk { x : R; y : R }.
End XY.

(** [interface HandLandmark { x; y; z }]. *)
Module HandLandmark.
Record t : Type := mk { x : R; y : R; z : R }.
End HandLandmark.

(** [interface EarthControlState]. *)
Record EarthControlState : Type := mkEarthControlState {
  rotation : XY.t;
  scale : R;
  position : XY.t;
  activeRegion : string
}.

(** The detector's classification entry; only [categoryName] is read. *)
Record Category : Type := mkCategory { categoryName : string }.

(** What [handLandmarker.detectForVideo] returns, as far as [renderLoop]
    reads it.  [landmarks] may be absent: the code tests
    [result.landmarks && result.landmarks.length > 0]. *)
Record HandLandmarkerResult : Type := mkResult {
  landmarks : option (list (list HandLandmark.t));
  handedness : list (list Category)
}.

(** ** Session start: the initial value of the [earthControl] ref
    (App.tsx, lines 281-286). *)
Definition earthControl_init : EarthControlState :=
  {| rotation := XY.mk 0 0;
     scale := 1;
     position := XY.mk (-2.5) 0;
     activeRegion := "ATLANTIC" |}.

(** ** Comparisons as booleans *)

(** The tests [a < b], [a > b], [a >= b] of the source, usable under
    [&&] and [||]. *)
Definition Rltb (a b : R) : bool := if Rlt_dec a b then true else false.
Definition Rgtb (a b : R) : bool := if Rgt_dec a b then true else false.
Definition Rgeb (a b : R) : bool := if Rge_dec a b then true else false.

(** ** Region bucketing (App.tsx, lines 12-25) *)

(** Truncation toward zero, as an integer. *)
Definition Rtrunc (r : R) : Z :=
  if Rle_dec 0 r then Int_part r else (- Int_part (- r))%Z.

(** The remainder operator [a % n] of the language: the result has the
    sign of the dividend, [a - n * trunc (a / n)]. *)
Definition jsRem (a n : R) : R := a - n * IZR (Rtrunc (a / n)).

(** [deg] as computed inside [getRegionFromRotation]. *)
Definition normalizedRotation (yRotation : R) : R :=
  let normalized := jsRem yRotation (PI * 2) in
  if Rlt_dec normalized 0 then normalized + PI * 2 else normalized.

Definition regionDegrees (yRotation : R) : R :=
  (normalizedRotation yRotation * 180) / PI.

Definition regionOfDegrees (deg : R) : string :=
  if Rgtb deg 330 || Rltb deg 30 then "非洲 / 欧洲"
  else if Rgeb deg 30 && Rltb deg 120 then "美洲 (东部)"
  else if Rgeb deg 120 && Rltb deg 210 then "太平洋"
  else if Rgeb deg 210 && Rltb deg 300 then "亚洲 / 澳洲"
  else "大西洋".

Definition getRegionFromRotation (yRotation : R) : string :=
  regionOfDegrees (regionDegrees yRotation).

(** ** The detection loop (App.tsx, lines 332-447) *)

(** What one run of the loop body can read and write: the object behind
    the [earthControl] ref and the local [statusString]. *)
Record Store : Type := mkStore {
  earthControl : EarthControlState;
  statusString : string
}.

(** A statement either completes or throws the [TypeError] of a property
    read on [undefined]; the writes made before the throw stay. *)
Inductive Completion (A : Type) : Type :=
| Normal (a : A)
| Throw.
Arguments Normal {A} a.
Arguments Throw {A}.

Definition JS (A : Type) : Type := Store -> Completion A * Store.

Definition ret {A : Type} (a : A) : JS A := fun s => (Normal a, s).

Definition bind {A B : Type} (m : JS A) (k : A -> JS B) : JS B :=
  fun s =>
    match m s with
    | (Normal a, s') => k a s'
    | (Throw, s') => (Throw, s')
    end.

Notation "x <- m ;; k" := (bind m (fun x => k))
  (at level 61, m at next level, right associativity).
Notation "m ;;; k" := (bind m (fun _ => k))
  (at level 61, right associativity).

(** Reading a property of a value that may be [undefined]. *)
Definition deref {A : Type} (o : option A) : JS A :=
  fun s => match o with Some a => (Normal a, s) | None => (Throw, s) end.

Definition setStatus (str : string) : JS unit :=
  fun s => (Normal tt, {| earthControl := earthControl s; statusString := str |}).

(** [earthControl.current.position = { x: worldX, y: worldY }]. *)
Definition setPosition (p : XY.t) : JS unit :=
  fun s =>
    let c := earthControl s in
    (Normal tt,
     {| earthControl :=
          {| rotation := rotation c; scale := scale c; position := p;
             activeRegion := activeRegion c |};
        statusString := statusString s |}).

(** [earthControl.current.rotation.y = v]. *)
Definition setRotationY (v : R) : JS unit :=
  fun s =>
    let c := earthControl s in
    (Normal tt,
     {| earthControl :=
          {| rotation := XY.mk (XY.x (rotation c)) v; scale := scale c;
             position := position c; activeRegion := activeRegion c |};
        statusString := statusString s |}).

(** [earthControl.current.rotation.x = v]. *)
Definition setRotationX (v : R) : JS unit :=
  fun s =>
    let c := earthControl s in
    (Normal tt,
     {| earthControl :=
          {| rotation := XY.mk v (XY.y (rotation c)); scale := scale c;
             position := position c; activeRegion := activeRegion c |};
        statusString := statusString s |}).

(** [earthControl.current.scale = v]. *)
Definition setScale (v : R) : JS unit :=
  fun s =>
    let c := earthControl s in
    (Normal tt,
     {| earthControl :=
          {| rotation := rotation c; scale := v; position := position c;
             activeRegion := activeRegion c |};
        statusString := statusString s |}).

(** [result.handedness[i][0].categoryName]. *)
Definition handednessAt (result : HandLandmarkerResult) (i : nat) : JS string :=
  entry <- deref (nth_error (handedness result) i) ;;
  c <- deref (nth_error entry 0) ;;
  ret (categoryName c).

(** The pinch distance of lines 395-398. *)
Definition pinchDistance (thumbTip indexTip : HandLandmark.t) : R :=
  sqrt ((HandLandmark.x thumbTip - HandLandmark.x indexTip) ^ 2 +
        (HandLandmark.y thumbTip - HandLandmark.y indexTip) ^ 2).

(** [Math.max(0.5, Math.min(3.5, 0.5 + (pinchDist * 10)))], line 435. *)
Definition newScale (pinchDist : R) : R :=
  Rmax 0.5 (Rmin 3.5 (0.5 + pinchDist * 10)).

Definition vHeight : R := 4.14.

(** The body of the [for] loop for the hand of index [i] (lines 372-437).
    Drawing the skeleton has no effect on the store and is left out. *)
Definition handBody (vWidth : R) (result : HandLandmarkerResult) (i : nat)
    (lms : list HandLandmark.t) : JS unit :=
  handedness <- handednessAt result i ;;
  let palmCenter := nth_error lms 9 in
  let thumbTip := nth_error lms 4 in
  let indexTip := nth_error lms 8 in
  palm <- deref palmCenter ;;
  let visualX := 1 - HandLandmark.x palm in
  let visualY := HandLandmark.y palm in
  thumb <- deref thumbTip ;;
  index <- deref indexTip ;;
  let pinchDist := pinchDistance thumb index in
  if String.eqb handedness "Left" then
    if Rltb pinchDist 0.05 then
      setStatus "左手: 拖拽中" ;;;
      let worldX := (visualX - 0.5) * vWidth in
      let worldY := - (visualY - 0.5) * vHeight in
      setPosition (XY.mk worldX worldY)
    else
      setStatus "左手: 待命 (捏合以拖拽)"
  else if String.eqb handedness "Right" then
    setStatus "右手: 旋转/缩放" ;;;
    setRotationY ((visualX - 0.5) * 6) ;;;
    setRotationX ((visualY - 0.5) * 4) ;;;
    setScale (newScale pinchDist)
  else ret tt.

(** [for (let i = 0; i < result.landmarks.length; i++)], started at [i]
    with the hands from index [i] on. *)
Fixpoint forHands (vWidth : R) (result : HandLandmarkerResult) (i : nat)
    (hands : list (list HandLandmark.t)) : JS unit :=
  match hands with
  | [] => ret tt
  | lms :: rest =>
      handBody vWidth result i lms ;;; forHands vWidth result (S i) rest
  end.

(** Everything one call of [renderLoop] takes from its surroundings. *)
Record Frame : Type := mkFrame {
  videoMounted : bool;      (* [videoRef.current] is not null *)
  canvasMounted : bool;     (* [canvasRef.current] is not null *)
  contextAvailable : bool;  (* [canvas.getContext("2d")] is not null *)
  innerWidth : R;
  innerHeight : R;
  detection : HandLandmarkerResult
}.

(** The state that lives across frames: the [earthControl] ref and the two
    React states the loop sets. *)
Record AppState : Type := mkAppState {
  control : EarthControlState;
  handDetected : bool;
  gestureStatus : string
}.

Definition app_init : AppState :=
  {| control := earthControl_init;
     handDetected := false;
     gestureStatus := "等待输入..." |}.

(** How a call of [renderLoop] ends: it schedules the next frame, returns
    before doing so, or dies on an uncaught [TypeError]. *)
Inductive LoopExit : Type := Rescheduled | ReturnedEarly | Uncaught.

(** The hands the loop iterates over; none when [result.landmarks] is
    absent or empty. *)
Definition detectedHands (result : HandLandmarkerResult)
  : list (list HandLandmark.t) :=
  match landmarks result with
  | Some hands => hands
  | None => []
  end.

(** One call of [renderLoop].  The frame-rate estimate of lines 334-338
    only touches [fps] and [lastTimeRef] and is left out. *)
Definition renderLoop (f : Frame) (a : AppState) : AppState * LoopExit :=
  if negb (videoMounted f) || negb (canvasMounted f) then (a, ReturnedEarly)
  else if negb (contextAvailable f) then (a, ReturnedEarly)
  else
    let result := detection f in
    let vWidth := vHeight * (innerWidth f / innerHeight f) in
    let s0 := {| earthControl := control a; statusString := "" |} in
    match detectedHands result with
    | [] =>
        ({| control := control a; handDetected := false;
            gestureStatus := "等待信号..." |}, Rescheduled)
    | hands =>
        match forHands vWidth result 0 hands s0 with
        | (Normal _, s) =>
            ({| control := earthControl s; handDetected := true;
                gestureStatus := statusString s |}, Rescheduled)
        | (Throw, s) =>
            ({| control := earthControl s; handDetected := handDetected a;
                gestureStatus := gestureStatus a |}, Uncaught)
        end
    end.

(** The session: [renderLoop] runs on the frames in order for as long as
    each call schedules the next one. *)
Fixpoint runFrames (frames : list Frame) (a : AppState) : AppState :=
  match frames with
  | [] => a
  | f :: rest =>
      match renderLoop f a with
      | (a', Rescheduled) => runFrames rest a'
      | (a', _) => a'
      end
  end.

(** ** The render tick (App.tsx, lines 37-68) *)

(** [Vector3.lerp] and [MathUtils.lerp] belong to the rendering library;
    they are written here as that library defines them. *)

Module Vector3.
Record t : Type := mk { x : R; y : R; z : R }.

(** [this.lerp(v, alpha)]: each component does
    [this.c += (v.c - this.c) * alpha]. *)
Definition lerp (this v : t) (alpha : R) : t :=
  {| x := x this + (x v - x this) * alpha;
     y := y this + (y v - y this) * alpha;
     z := z this + (z v - z this) * alpha |}.
End Vector3.

Module MathUtils.
(** [lerp(x, y, t)] is [(1 - t) * x + t * y]. *)
Definition lerp (x y t : R) : R := (1 - t) * x + t * y.
End MathUtils.

Module Euler.
Record t : Type := mk { x : R; y : R; z : R }.
End Euler.

(** The part of a scene object that the tick reads and writes. *)
Module Object3D.
Record t : Type := mk {
  position : Vector3.t;
  rotation : Euler.t;
  scale : Vector3.t
}.
End Object3D.

(** The four refs of [HolographicEarth]; [None] is a ref whose [current]
    is still null. *)
Record SceneRefs : Type := mkSceneRefs {
  groupRef : option Object3D.t;
  earthRef : option Object3D.t;
  cloudsRef : option Object3D.t;
  ringsRef : option Object3D.t
}.

(** The body of the [useFrame] callback once the four refs are known to
    be set.  [elapsedTime] is [state.clock.getElapsedTime()]. *)
Definition smoothStep (c : EarthControlState) (elapsedTime : R)
    (group earth clouds rings : Object3D.t)
  : Object3D.t * Object3D.t * Object3D.t * Object3D.t :=
  let targetScale := scale c in
  let targetRotY := XY.y (rotation c) in
  let targetRotX := XY.x (rotation c) in
  let targetPos := position c in
  let group1 :=
    Object3D.mk
      (Vector3.lerp (Object3D.position group)
         (Vector3.mk (XY.x targetPos) (XY.y targetPos) 0) 0.2)
      (Object3D.rotation group) (Object3D.scale group) in
  let earthScale :=
    Vector3.lerp (Object3D.scale earth)
      (Vector3.mk targetScale targetScale targetScale) 0.1 in
  let cloudsScale :=
    Vector3.lerp (Object3D.scale clouds)
      (Vector3.mk (targetScale * 1.02) (targetScale * 1.02) (targetScale * 1.02))
      0.1 in
  let ringsScale :=
    Vector3.lerp (Object3D.scale rings)
      (Vector3.mk targetScale targetScale targetScale) 0.1 in
  let earthRotY := MathUtils.lerp (Euler.y (Object3D.rotation earth)) targetRotY 0.1 in
  let earthRotX := MathUtils.lerp (Euler.x (Object3D.rotation earth)) targetRotX 0.1 in
  let earth1 :=
    Object3D.mk (Object3D.position earth)
      (Euler.mk earthRotX earthRotY (Euler.z (Object3D.rotation earth)))
      earthScale in
  let clouds1 :=
    Object3D.mk (Object3D.position clouds)
      (Euler.mk earthRotX (earthRotY * 1.1 + elapsedTime * 0.05)
         (Euler.z (Object3D.rotation clouds)))
      cloudsScale in
  let rings1 :=
    Object3D.mk (Object3D.position rings)
      (Euler.mk (Euler.x (Object3D.rotation rings))
         (Euler.y (Object3D.rotation rings) + 0.005)
         (sin (elapsedTime * 0.2) * 0.1))
      ringsScale in
  (group1, earth1, clouds1, rings1).

(** The [useFrame] callback: the refs after the tick and the region handed
    to [setContinent], if the tick got that far.  [delta] is the callback's
    second argument. *)
Definition useFrame (c : EarthControlState) (elapsedTime delta : R)
    (r : SceneRefs) : SceneRefs * option string :=
  match earthRef r, cloudsRef r, ringsRef r, groupRef r with
  | Some earth, Some clouds, Some rings, Some group =>
      let '(group1, earth1, clouds1, rings1) :=
        smoothStep c elapsedTime group earth clouds rings in
      ({| groupRef := Some group1; earthRef := Some earth1;
          cloudsRef := Some clouds1; ringsRef := Some rings1 |},
       Some (getRegionFromRotation (Euler.y (Object3D.rotation earth1))))
  | _, _, _, _ => (r, None)
  end.

(** The scene as the component mounts it: the group at [-2.5, 0, 0], the
    rings tilted by [PI / 3], everything else at the library's defaults. *)
Definition scene_init : SceneRefs :=
  let unit3 := Vector3.mk 1 1 1 in
  let zero3 := Vector3.mk 0 0 0 in
  {| groupRef := Some (Object3D.mk (Vector3.mk (-2.5) 0 0) (Euler.mk 0 0 0) unit3);
     earthRef := Some (Object3D.mk zero3 (Euler.mk 0 0 0) unit3);
     cloudsRef := Some (Object3D.mk zero3 (Euler.mk 0 0 0) unit3);
     ringsRef := Some (Object3D.mk zero3 (Euler.mk (PI / 3) 0 0) unit3) |}.

(** ** Vocabulary of the design document *)

(** What the loop body reads of one hand: the handedness label and the
    three landmarks of indices 9, 4 and 8. *)
Record Observation : Type := mkObservation {
  hand : string;
  palmCenter : HandLandmark.t;
  thumbTip : HandLandmark.t;
  indexTip : HandLandmark.t
}.

(** The observation of the hand of index [i], when all of its parts are
    there to be read. *)
Definition readHand (result : HandLandmarkerResult) (i : nat)
    (lms : list HandLandmark.t) : option Observation :=
  match nth_error (handedness result) i with
  | Some (c :: _) =>
      match nth_error lms 9, nth_error lms 4, nth_error lms 8 with
      | Some palm, Some thumb, Some index =>
          Some (mkObservation (categoryName c) palm thumb index)
      | _, _, _ => None
      end
  | _ => None
  end.

Definition pinchOf (o : Observation) : R :=
  pinchDistance (thumbTip o) (indexTip o).

Definition visualX (o : Observation) : R := 1 - HandLandmark.x (palmCenter o).
Definition visualY (o : Observation) : R := HandLandmark.y (palmCenter o).

(** [clamp(v, lo, hi)] in the document's formula for the scale. *)
Definition spec_clamp (v lo hi : R) : R :=
  if Rlt_dec v lo then lo else if Rgt_dec v hi then hi else v.

Definition spec_computedScale (d : R) : R := spec_clamp (0.5 + d * 10) 0.5 3.5.

(** The invariant of the document on the control state. *)
Definition scaleInRange (c : EarthControlState) : Prop :=
  0.5 <= scale c <= 3.5.

(** [isPinching = pinchDistance < PINCH_THRESHOLD], threshold 0.05. *)
Definition spec_PINCH_THRESHOLD : R := 0.05.
Definition spec_isPinching (o : Observation) : Prop :=
  pinchOf o < spec_PINCH_THRESHOLD.

(** The three effects of the loop body on the object behind [earthControl]:
    none (also when the body throws), a drag by a pinching left hand, a
    rotation and scaling by a right hand. *)
Inductive HandEffect (vWidth : R) (result : HandLandmarkerResult) (i : nat)
    (lms : list HandLandmark.t) (c c' : EarthControlState) : Prop :=
| NoWrite :
    c' = c -> HandEffect vWidth result i lms c c'
| Drag (o : Observation) :
    readHand result i lms = Some o ->
    hand o = "Left"%string -> spec_isPinching o ->
    c' = {| rotation := rotation c; scale := scale c;
            position := XY.mk ((visualX o - 0.5) * vWidth)
                              (- (visualY o - 0.5) * vHeight);
            activeRegion := activeRegion c |} ->
    HandEffect vWidth result i lms c c'
| RotateScale (o : Observation) :
    readHand result i lms = Some o ->
    hand o = "Right"%string ->
    c' = {| rotation := XY.mk ((visualY o - 0.5) * 4) ((visualX o - 0.5) * 6);
            scale := newScale (pinchOf o);
            position := position c;
            activeRegion := activeRegion c |} ->
    HandEffect vWidth result i lms c c'.

(** Zero hands detected: [result.landmarks] is absent or empty. *)
Definition zeroHands (f : Frame) : Prop :=
  landmarks (detection f) = None \/ landmarks (detection f) = Some [].

(** Some hand of the frame, readable, satisfies [P]. *)
Definition handInFrame (f : Frame) (P : Observation -> Prop) : Prop :=
  exists (i : nat) (lms : list HandLandmark.t) (o : Observation),
    nth_error (detectedHands (detection f)) i = Some lms /\
    readHand (detection f) i lms = Some o /\ P o.

Definition isLeftPinch (o : Observation) : Prop :=
  hand o = "Left"%string /\ spec_isPinching o.

Definition isRight (o : Observation) : Prop := hand o = "Right"%string.

(** Some hand among [hands], the first of which has index [i]. *)
Definition handAmong (result : HandLandmarkerResult) (i : nat)
    (hands : list (list HandLandmark.t)) (P : Observation -> Prop) : Prop :=
  exists (j : nat) (lms : list HandLandmark.t) (o : Observation),
    nth_error hands j = Some lms /\
    readHand result (i + j) lms = Some o /\ P o.

(** Two landmarks that differ at most in [z]. *)
Definition sameXY (p q : HandLandmark.t) : Prop :=
  HandLandmark.x p = HandLandmark.x q /\ HandLandmark.y p = HandLandmark.y q.

(** Two detector results that differ at most in the [z] of landmarks. *)
Definition sameUpToZ (r1 r2 : HandLandmarkerResult) : Prop :=
  handedness r1 = handedness r2 /\
  match landmarks r1, landmarks r2 with
  | Some h1, Some h2 => Forall2 (Forall2 sameXY) h1 h2
  | None, None => True
  | _, _ => False
  end.

Definition withDetection (f : Frame) (r : HandLandmarkerResult) : Frame :=
  {| videoMounted := videoMounted f; canvasMounted := canvasMounted f;
     contextAvailable := contextAvailable f;
     innerWidth := innerWidth f; innerHeight := innerHeight f;
     detection := r |}.

Definition earthScaleOf (r : SceneRefs) : option Vector3.t :=
  option_map Object3D.scale (earthRef r).

(** The cell of the partition of [[0, 360)] that the four boundaries 30,
    120, 210 and 300 cut out. *)
Definition spec_cell (deg : R) : nat :=
  if Rltb deg 30 then 0
  else if Rltb deg 120 then 1
  else if Rltb deg 210 then 2
  else if Rltb deg 300 then 3
  else 4.

(** The angle of [d] degrees, in radians. *)
Definition radians (d : R) : R := d * PI / 180.

(** ** Concrete inputs *)

Definition origin : HandLandmark.t := HandLandmark.mk 0 0 0.

(** A right hand: palm centre at [(1, 0.5)], thumb tip and index tip a
    quarter of the image width apart. *)
Definition rightHandLandmarks : list HandLandmark.t :=
  [origin; origin; origin; origin;
   HandLandmark.mk 0.5 0.5 0;          (* 4: thumb tip *)
   origin; origin; origin;
   HandLandmark.mk 0.25 0.5 0;         (* 8: index tip *)
   HandLandmark.mk 1 0.5 0].           (* 9: palm centre *)

Definition rightHandResult : HandLandmarkerResult :=
  {| landmarks := Some [rightHandLandmarks];
     handedness := [[mkCategory "Right"]] |}.

Definition rightHandObservation : Observation :=
  mkObservation "Right" (HandLandmark.mk 1 0.5 0)
    (HandLandmark.mk 0.5 0.5 0) (HandLandmark.mk 0.25 0.5 0).

(** The same landmarks reported as a left hand: too far apart to pinch. *)
Definition leftIdleResult : HandLandmarkerResult :=
  {| landmarks := Some [rightHandLandmarks];
     handedness := [[mkCategory "Left"]] |}.

Definition leftIdleObservation : Observation :=
  mkObservation "Left" (HandLandmark.mk 1 0.5 0)
    (HandLandmark.mk 0.5 0.5 0) (HandLandmark.mk 0.25 0.5 0).

(** Two frames without hands: an empty list of landmarks, and none. *)
Definition handlessFrame : Frame :=
  {| videoMounted := true; canvasMounted := true; contextAvailable := true;
     innerWidth := 1280; innerHeight := 720;
     detection := {| landmarks := Some []; handedness := [] |} |}.

Definition absentLandmarksFrame : Frame :=
  {| videoMounted := true; canvasMounted := true; contextAvailable := true;
     innerWidth := 1280; innerHeight := 720;
     detection := {| landmarks := None; handedness := [] |} |}.

(** The concrete right hand once more, with other depths. *)
Definition rightHandLandmarksDeep : list HandLandmark.t :=
  map (fun p => HandLandmark.mk (HandLandmark.x p) (HandLandmark.y p) (-0.3))
      rightHandLandmarks.

Definition rightHandFrame : Frame :=
  {| videoMounted := true; canvasMounted := true; contextAvailable := true;
     innerWidth := 1280; innerHeight := 720;
     detection := rightHandResult |}.

Definition rightHandResultDeep : HandLandmarkerResult :=
  {| landmarks := Some [rightHandLandmarksDeep];
     handedness := [[mkCategory "Right"]] |}.

(** A control state whose scale differs from the mounted scene's. *)
Definition doubledControl : EarthControlState :=
  {| rotation := XY.mk 0 0; scale := 2; position := XY.mk (-2.5) 0;
     activeRegion := "ATLANTIC" |}.

(** ** Further vocabulary for the detection loop *)

(** The three guards of lines 340-344 all pass. *)
Definition mounted (f : Frame) : bool :=
  videoMounted f && canvasMounted f && contextAvailable f.

(** The hand of index [i] has its handedness entry and its landmarks 9, 4
    and 8. *)
Definition readable (result : HandLandmarkerResult) (i : nat)
    (lms : list HandLandmark.t) : bool :=
  match readHand result i lms with Some _ => true | None => false end.

(** All of [hands] are readable, the first of them having index [i]. *)
Fixpoint allReadable (result : HandLandmarkerResult) (i : nat)
    (hands : list (list HandLandmark.t)) : bool :=
  match hands with
  | [] => true
  | lms :: rest => readable result i lms && allReadable result (S i) rest
  end.

(** The store a call of [renderLoop] starts its loop with. *)
Definition loopStart (a : AppState) : Store :=
  {| earthControl := control a; statusString := "" |}.

(** [vWidth] as [renderLoop] computes it from the window. *)
Definition vWidthOf (f : Frame) : R := vHeight * (innerWidth f / innerHeight f).

(** The writes of a stretch of the loop, as the fields they overwrite: a
    position, or a rotation together with a scale. *)
Record Patch : Type := mkPatch {
  newPosition : option XY.t;
  newRotationScale : option (XY.t * R)
}.

Definition applyPatch (p : Patch) (c : EarthControlState) : EarthControlState :=
  {| rotation := match newRotationScale p with
                 | Some (r, _) => r
                 | None => rotation c
                 end;
     scale := match newRotationScale p with
              | Some (_, k) => k
              | None => scale c
              end;
     position := match newPosition p with
                 | Some q => q
                 | None => position c
                 end;
     activeRegion := activeRegion c |}.

(** [q] after [p]. *)
Definition thenPatch (p q : Patch) : Patch :=
  {| newPosition := match newPosition q with
                    | Some x => Some x
                    | None => newPosition p
                    end;
     newRotationScale := match newRotationScale q with
                         | Some x => Some x
                         | None => newRotationScale p
                         end |}.

(** A frame that holds exactly two hands, in this order. *)
Definition twoHandFrame (f : Frame)
    (lmsA : list HandLandmark.t) (labelA : string)
    (lmsB : list HandLandmark.t) (labelB : string) : Frame :=
  withDetection f
    {| landmarks := Some [lmsA; lmsB];
       handedness := [[mkCategory labelA]; [mkCategory labelB]] |}.

(** A left hand that pinches at the centre of the image. *)
Definition leftPinchLandmarks : list HandLandmark.t :=
  [origin; origin; origin; origin;
   HandLandmark.mk 0.5 0.5 0;          (* 4: thumb tip *)
   origin; origin; origin;
   HandLandmark.mk 0.5 0.5 0;          (* 8: index tip *)
   HandLandmark.mk 0.5 0.5 0].         (* 9: palm centre *)

(** A right hand followed by a hand without landmarks. *)
Definition brokenSecondHandFrame : Frame :=
  {| videoMounted := true; canvasMounted := true; contextAvailable := true;
     innerWidth := 1280; innerHeight := 720;
     detection := {| landmarks := Some [rightHandLandmarks; []];
                     handedness := [[mkCategory "Right"]; [mkCategory "Left"]] |} |}.

(** A frame that arrives while the canvas is not mounted. *)
Definition unmountedFrame : Frame :=
  {| videoMounted := true; canvasMounted := false; contextAvailable := true;
     innerWidth := 1280; innerHeight := 720;
     detection := rightHandResult |}.

(** A landmark moved by [(dx, dy)] in the image plane. *)
Definition shiftXY (dx dy : R) (p : HandLandmark.t) : HandLandmark.t :=
  HandLandmark.mk (HandLandmark.x p + dx) (HandLandmark.y p + dy)
    (HandLandmark.z p).

Definition leftPinchResult : HandLandmarkerResult :=
  {| landmarks := Some [leftPinchLandmarks];
     handedness := [[mkCategory "Left"]] |}.

Definition leftPinchObservation : Observation :=
  mkObservation "Left" (HandLandmark.mk 0.5 0.5 0)
    (HandLandmark.mk 0.5 0.5 0) (HandLandmark.mk 0.5 0.5 0).

(** ** Runs of the render tick *)

(** What one call of the [useFrame] callback takes from its surroundings:
    the control state it finds behind [controlRef], the clock's elapsed
    time and the delta. *)
Record Tick : Type := mkTick {
  tickControl : EarthControlState;
  tickElapsed : R;
  tickDelta : R
}.

(** The callback run once per tick, in order, on the same refs. *)
Fixpoint runTicks (ticks : list Tick) (r : SceneRefs) : SceneRefs :=
  match ticks with
  | [] => r
  | t :: rest =>
      runTicks rest
        (fst (useFrame (tickControl t) (tickElapsed t) (tickDelta t) r))
  end.

(** The four refs, all set. *)
Definition mountedScene (group earth clouds rings : Object3D.t) : SceneRefs :=
  {| groupRef := Some group; earthRef := Some earth;
     cloudsRef := Some clouds; ringsRef := Some rings |}.

Definition groupPositionOf (r : SceneRefs) : option Vector3.t :=
  option_map Object3D.position (groupRef r).

Definition earthRotationOf (r : SceneRefs) : option Euler.t :=
  option_map Object3D.rotation (earthRef r).

Definition ringsRotationOf (r : SceneRefs) : option Euler.t :=
  option_map Object3D.rotation (ringsRef r).

(** Every component of [v] lies in [[lo, hi]]. *)
Definition vectorWithin (lo hi : R) (v : Vector3.t) : Prop :=
  lo <= Vector3.x v <= hi /\ lo <= Vector3.y v <= hi /\ lo <= Vector3.z v <= hi.

(** The targets the tick interpolates towards. *)
Definition targetPosition (c : EarthControlState) : Vector3.t :=
  Vector3.mk (XY.x (position c)) (XY.y (position c)) 0.

Definition targetScale (c : EarthControlState) : Vector3.t :=
  Vector3.mk (scale c) (scale c) (scale c).

(** A scene whose rings are not mounted yet. *)
Definition sceneWithoutRings : SceneRefs :=
  {| groupRef := groupRef scene_init; earthRef := earthRef scene_init;
     cloudsRef := cloudsRef scene_init; ringsRef := None |}.

Definition unitObject : Object3D.t :=
  Object3D.mk (Vector3.mk 0 0 0) (Euler.mk 0 0 0) (Vector3.mk 1 1 1).

(** ** The frame-rate estimate (App.tsx, lines 334-338) *)

(** The [fps] state and the [lastTimeRef] ref. *)
Record FpsState : Type := mkFpsState {
  fps : R;
  lastTime : R
}.

Definition fps_init : FpsState := {| fps := 0; lastTime := 0 |}.

(** [Math.round]: the nearest integer, halves rounded up. *)
Definition jsRound (r : R) : R := IZR (Int_part (r + 0.5)).

(** [r || 1] on a number: [1] when [r] is zero. *)
Definition orOne (r : R) : R := if Req_dec_T r 0 then 1 else r.

(** The first statements of [renderLoop], for the call made at [time]. *)
Definition fpsStep (time : R) (st : FpsState) : FpsState :=
  let delta := time - lastTime st in
  if Rgeb delta 1000 then
    {| fps := jsRound (1000 / (delta / orOne (jsRem time 1000)));
       lastTime := time |}
  else st.

(** The estimate over the calls made at [times], in order. *)
Definition runFps (times : list R) (st : FpsState) : FpsState :=
  fold_left (fun s time => fpsStep time s) times st.

(** ** The hex stream (App.tsx, lines 120-138) *)

(** The state update of the interval callback:
    [prev => [newCode, ...prev.slice(0, 8)]]. *)
Definition hexUpdate (newCode : string) (prev : list string) : list string :=
  newCode :: firstn 8 prev.

(** The list after the codes have arrived in the order of [codes]. *)
Definition runHex (codes : list string) (hex : list string) : list string :=
  fold_left (fun prev newCode => hexUpdate newCode prev) codes hex.

(** ** The hand panels of the overlay (App.tsx, lines 203-216) *)

(** Strings are sequences of bytes in UTF-8 here.  [includes] and
    [split(":")] see the same matches on them as on the code units of the
    source language: no character's encoding contains another's, and the
    separator is a single byte. *)

(** [s.includes(needle)]. *)
Fixpoint includes (needle s : string) : bool :=
  String.prefix needle s ||
  match s with
  | EmptyString => false
  | String _ rest => includes needle rest
  end.

(** [s.split(sep)] for a separator of one character. *)
Fixpoint split (sep : Ascii.ascii) (s : string) : list string :=
  match s with
  | EmptyString => [EmptyString]
  | String ch rest =>
      if Ascii.eqb ch sep then EmptyString :: split sep rest
      else
        match split sep rest with
        | seg :: more => String ch seg :: more
        | [] => [String ch EmptyString]
        end
  end.

(** The text of a hand's panel:
    [gestureStatus.includes(marker) ? gestureStatus.split(":")[1] : "待命"];
    [None] is [undefined], which renders as nothing. *)
Definition panelText (marker gestureStatus : string) : option string :=
  if includes marker gestureStatus
  then nth_error (split ":"%char gestureStatus) 1
  else Some "待命"%string.

Definition leftPanel : string -> option string := panelText "左手".
Definition rightPanel : string -> option string := panelText "右手".

(** The status strings a session can show. *)
Definition shownStatuses : list string :=
  ["等待输入..."; "等待信号..."; ""; "左手: 拖拽中"; "左手: 待命 (捏合以拖拽)";
   "右手: 旋转/缩放"]%string.

(** What the two panels can show together. *)
Definition shownPanels : list (option string * option string) :=
  [(Some "待命", Some "待命");
   (Some " 拖拽中", Some "待命");
   (Some " 待命 (捏合以拖拽)", Some "待命");
   (Some "待命", Some " 旋转/缩放")]%string.

(** A frame whose only hand carries a label that is neither "Left" nor
    "Right". *)
Definition unlabelledHandFrame : Frame :=
  withDetection rightHandFrame
    {| landmarks := Some [rightHandLandmarks];
       handedness := [[mkCategory "Unknown"]] |}.

(** ** The detection loop over numbers with NaN and infinities *)

(** The same loop once more (App.tsx, lines 281-286 and 340-447), over
    numbers that can also be [NaN], [Infinity] or [-Infinity], with the
    arithmetic of IEEE-754 on these special values.  Finite values stay
    exact reals; rounding, overflow and the sign of zero are outside. *)
Module Ieee.

Inductive number : Type :=
| Fin (r : R)
| PosInf
| NegInf
| NaN.

Definition neg (a : number) : number :=
  match a with
  | Fin r => Fin (- r)
  | PosInf => NegInf
  | NegInf => PosInf
  | NaN => NaN
  end.

(** [a + b]: [Infinity + -Infinity] is [NaN]. *)
Definition add (a b : number) : number :=
  match a, b with
  | NaN, _ => NaN
  | _, NaN => NaN
  | Fin x, Fin y => Fin (x + y)
  | PosInf, NegInf => NaN
  | NegInf, PosInf => NaN
  | PosInf, _ => PosInf
  | _, PosInf => PosInf
  | NegInf, _ => NegInf
  | _, NegInf => NegInf
  end.

(** [a - b]. *)
Definition sub (a b : number) : number := add a (neg b).

(** An infinity of the given sign times the finite [r]: [NaN] at zero. *)
Definition infTimes (positive : bool) (r : R) : number :=
  if Rlt_dec 0 r then (if positive then PosInf else NegInf)
  else if Rlt_dec r 0 then (if positive then NegInf else PosInf)
  else NaN.

(** [a * b]. *)
Definition mul (a b : number) : number :=
  match a, b with
  | NaN, _ => NaN
  | _, NaN => NaN
  | Fin x, Fin y => Fin (x * y)
  | PosInf, Fin y => infTimes true y
  | NegInf, Fin y => infTimes false y
  | Fin x, PosInf => infTimes true x
  | Fin x, NegInf => infTimes false x
  | PosInf, PosInf => PosInf
  | NegInf, NegInf => PosInf
  | PosInf, NegInf => NegInf
  | NegInf, PosInf => NegInf
  end.

(** [w / h] for two finite numbers: division by zero gives an infinity,
    and [0 / 0] gives [NaN]. *)
Definition divide (w h : R) : number :=
  if Req_dec_T h 0 then
    if Rlt_dec 0 w then PosInf else if Rlt_dec w 0 then NegInf else NaN
  else Fin (w / h).

(** [Math.pow(a, 2)]. *)
Definition pow2 (a : number) : number :=
  match a with
  | Fin r => Fin (r ^ 2)
  | PosInf => PosInf
  | NegInf => PosInf
  | NaN => NaN
  end.

(** [Math.sqrt(a)]. *)
Definition sqrt (a : number) : number :=
  match a with
  | Fin r => if Rlt_dec r 0 then NaN else Fin (R_sqrt.sqrt r)
  | PosInf => PosInf
  | NegInf => NaN
  | NaN => NaN
  end.

(** [Math.max(a, b)]: [NaN] as soon as one argument is. *)
Definition max (a b : number) : number :=
  match a, b with
  | NaN, _ => NaN
  | _, NaN => NaN
  | PosInf, _ => PosInf
  | _, PosInf => PosInf
  | NegInf, y => y
  | x, NegInf => x
  | Fin x, Fin y => Fin (Rmax x y)
  end.

(** [Math.min(a, b)]: [NaN] as soon as one argument is. *)
Definition min (a b : number) : number :=
  match a, b with
  | NaN, _ => NaN
  | _, NaN => NaN
  | NegInf, _ => NegInf
  | _, NegInf => NegInf
  | PosInf, y => y
  | x, PosInf => x
  | Fin x, Fin y => Fin (Rmin x y)
  end.

(** [a < b]: false as soon as one side is [NaN]. *)
Definition lt (a b : number) : bool :=
  match a, b with
  | NaN, _ => false
  | _, NaN => false
  | Fin x, Fin y => Rltb x y
  | _, NegInf => false
  | PosInf, _ => false
  | NegInf, _ => true
  | Fin _, PosInf => true
  end.

Module XY.
Record t : Type := mk { x : number; y : number }.
End XY.

Module HandLandmark.
Record t : Type := mk { x : number; y : number; z : number }.
End HandLandmark.

Record EarthControlState : Type := mkEarthControlState {
  rotation : XY.t;
  scale : number;
  position : XY.t;
  activeRegion : string
}.

Record HandLandmarkerResult : Type := mkResult {
  landmarks : option (list (list HandLandmark.t));
  handedness : list (list Category)
}.

Definition earthControl_init : EarthControlState :=
  {| rotation := XY.mk (Fin 0) (Fin 0);
     scale := Fin 1;
     position := XY.mk (Fin (-2.5)) (Fin 0);
     activeRegion := "ATLANTIC" |}.

Record Store : Type := mkStore {
  earthControl : EarthControlState;
  statusString : string
}.

Definition JS (A : Type) : Type := Store -> Completion A * Store.

Definition ret {A : Type} (a : A) : JS A := fun s => (Normal a, s).

Definition bind {A B : Type} (m : JS A) (k : A -> JS B) : JS B :=
  fun s =>
    match m s with
    | (Normal a, s') => k a s'
    | (Throw, s') => (Throw, s')
    end.

Local Set Warnings "-notation-overridden".
Local Notation "x <- m ;; k" := (bind m (fun x => k))
  (at level 61, m at next level, right associativity).
Local Notation "m ;;; k" := (bind m (fun _ => k))
  (at level 61, right associativity).

Definition deref {A : Type} (o : option A) : JS A :=
  fun s => match o with Some a => (Normal a, s) | None => (Throw, s) end.

Definition setStatus (str : string) : JS unit :=
  fun s => (Normal tt, {| earthControl := earthControl s; statusString := str |}).

Definition setPosition (p : XY.t) : JS unit :=
  fun s =>
    let c := earthControl s in
    (Normal tt,
     {| earthControl :=
          {| rotation := rotation c; scale := scale c; position := p;
             activeRegion := activeRegion c |};
        statusString := statusString s |}).

Definition setRotationY (v : number) : JS unit :=
  fun s =>
    let c := earthControl s in
    (Normal tt,
     {| earthControl :=
          {| rotation := XY.mk (XY.x (rotation c)) v; scale := scale c;
             position := position c; activeRegion := activeRegion c |};
        statusString := statusString s |}).

Definition setRotationX (v : number) : JS unit :=
  fun s =>
    let c := earthControl s in
    (Normal tt,
     {| earthControl :=
          {| rotation := XY.mk v (XY.y (rotation c)); scale := scale c;
             position := position c; activeRegion := activeRegion c |};
        statusString := statusString s |}).

Definition setScale (v : number) : JS unit :=
  fun s =>
    let c := earthControl s in
    (Normal tt,
     {| earthControl :=
          {| rotation := rotation c; scale := v; position := position c;
             activeRegion := activeRegion c |};
        statusString := statusString s |}).

(** [result.handedness[i][0].categoryName]. *)
Definition handednessAt (result : HandLandmarkerResult) (i : nat) : JS string :=
  entry <- deref (nth_error (handedness result) i) ;;
  c <- deref (nth_error entry 0) ;;
  ret (categoryName c).

(** The pinch distance of lines 395-398. *)
Definition pinchDistance (thumbTip indexTip : HandLandmark.t) : number :=
  sqrt (add (pow2 (sub (HandLandmark.x thumbTip) (HandLandmark.x indexTip)))
            (pow2 (sub (HandLandmark.y thumbTip) (HandLandmark.y indexTip)))).

(** [Math.max(0.5, Math.min(3.5, 0.5 + (pinchDist * 10)))], line 435. *)
Definition newScale (pinchDist : number) : number :=
  max (Fin 0.5) (min (Fin 3.5) (add (Fin 0.5) (mul pinchDist (Fin 10)))).

Definition vHeight : number := Fin 4.14.

(** The body of the [for] loop (lines 372-437). *)
Definition handBody (vWidth : number) (result : HandLandmarkerResult) (i : nat)
    (lms : list HandLandmark.t) : JS unit :=
  handedness <- handednessAt result i ;;
  let palmCenter := nth_error lms 9 in
  let thumbTip := nth_error lms 4 in
  let indexTip := nth_error lms 8 in
  palm <- deref palmCenter ;;
  let visualX := sub (Fin 1) (HandLandmark.x palm) in
  let visualY := HandLandmark.y palm in
  thumb <- deref thumbTip ;;
  index <- deref indexTip ;;
  let pinchDist := pinchDistance thumb index in
  if String.eqb handedness "Left" then
    if lt pinchDist (Fin 0.05) then
      setStatus "左手: 拖拽中" ;;;
      let worldX := mul (sub visualX (Fin 0.5)) vWidth in
      let worldY := mul (neg (sub visualY (Fin 0.5))) vHeight in
      setPosition (XY.mk worldX worldY)
    else
      setStatus "左手: 待命 (捏合以拖拽)"
  else if String.eqb handedness "Right" then
    setStatus "右手: 旋转/缩放" ;;;
    setRotationY (mul (sub visualX (Fin 0.5)) (Fin 6)) ;;;
    setRotationX (mul (sub visualY (Fin 0.5)) (Fin 4)) ;;;
    setScale (newScale pinchDist)
  else ret tt.

Fixpoint forHands (vWidth : number) (result : HandLandmarkerResult) (i : nat)
    (hands : list (list HandLandmark.t)) : JS unit :=
  match hands with
  | [] => ret tt
  | lms :: rest =>
      handBody vWidth result i lms ;;; forHands vWidth result (S i) rest
  end.

(** [window.innerWidth] and [window.innerHeight] are finite. *)
Record Frame : Type := mkFrame {
  videoMounted : bool;
  canvasMounted : bool;
  contextAvailable : bool;
  innerWidth : R;
  innerHeight : R;
  detection : HandLandmarkerResult
}.

Record AppState : Type := mkAppState {
  control : EarthControlState;
  handDetected : bool;
  gestureStatus : string
}.

Definition app_init : AppState :=
  {| control := earthControl_init;
     handDetected := false;
     gestureStatus := "等待输入..." |}.

Definition detectedHands (result : HandLandmarkerResult)
  : list (list HandLandmark.t) :=
  match landmarks result with
  | Some hands => hands
  | None => []
  end.

Definition renderLoop (f : Frame) (a : AppState) : AppState * LoopExit :=
  if negb (videoMounted f) || negb (canvasMounted f) then (a, ReturnedEarly)
  else if negb (contextAvailable f) then (a, ReturnedEarly)
  else
    let result := detection f in
    let vWidth := mul vHeight (divide (innerWidth f) (innerHeight f)) in
    let s0 := {| earthControl := control a; statusString := "" |} in
    match detectedHands result with
    | [] =>
        ({| control := control a; handDetected := false;
            gestureStatus := "等待信号..." |}, Rescheduled)
    | hands =>
        match forHands vWidth result 0 hands s0 with
        | (Normal _, s) =>
            ({| control := earthControl s; handDetected := true;
                gestureStatus := statusString s |}, Rescheduled)
        | (Throw, s) =>
            ({| control := earthControl s; handDetected := handDetected a;
                gestureStatus := gestureStatus a |}, Uncaught)
        end
    end.

Fixpoint runFrames (frames : list Frame) (a : AppState) : AppState :=
  match frames with
  | [] => a
  | f :: rest =>
      match renderLoop f a with
      | (a', Rescheduled) => runFrames rest a'
      | (a', _) => a'
      end
  end.

(** *** Vocabulary *)




(** The invariant of the document: [scale] is a number of [[0.5, 3.5]]. *)
Definition scaleInRange (c : EarthControlState) : Prop :=
  match scale c with
  | Fin r => 0.5 <= r <= 3.5
  | _ => False
  end.

End Ieee.

(** A landmark of real coordinates, as a landmark of finite numbers. *)
Definition finiteLandmarkOf (p : HandLandmark.t) : Ieee.HandLandmark.t :=
  Ieee.HandLandmark.mk (Ieee.Fin (HandLandmark.x p)) (Ieee.Fin (HandLandmark.y p))
    (Ieee.Fin (HandLandmark.z p)).






(** The loop over real numbers, seen inside the loop over numbers with
    NaN and infinities: every number becomes the finite number it is. *)
Definition finiteXY (p : XY.t) : Ieee.XY.t :=
  Ieee.XY.mk (Ieee.Fin (XY.x p)) (Ieee.Fin (XY.y p)).

Definition finiteControl (c : EarthControlState) : Ieee.EarthControlState :=
  {| Ieee.rotation := finiteXY (rotation c);
     Ieee.scale := Ieee.Fin (scale c);
     Ieee.position := finiteXY (position c);
     Ieee.activeRegion := activeRegion c |}.

Definition finiteStore (s : Store) : Ieee.Store :=
  {| Ieee.earthControl := finiteControl (earthControl s);
     Ieee.statusString := statusString s |}.

Definition finiteResult (r : HandLandmarkerResult) : Ieee.HandLandmarkerResult :=
  {| Ieee.landmarks := option_map (map (map finiteLandmarkOf)) (landmarks r);
     Ieee.handedness := handedness r |}.

Definition finiteFrameOf (f : Frame) : Ieee.Frame :=
  {| Ieee.videoMounted := videoMounted f;
     Ieee.canvasMounted := canvasMounted f;
     Ieee.contextAvailable := contextAvailable f;
     Ieee.innerWidth := innerWidth f;
     Ieee.innerHeight := innerHeight f;
     Ieee.detection := finiteResult (detection f) |}.

Definition finiteApp (a : AppState) : Ieee.AppState :=
  {| Ieee.control := finiteControl (control a);
     Ieee.handDetected := handDetected a;
     Ieee.gestureStatus := gestureStatus a |}.

(** * Properties *)

(** ** The comparisons *)

Lemma Rltb_true (a b : R) : Rltb a b = true <-> a < b.
Proof. unfold Rltb; destruct (Rlt_dec a b); split; intros; congruence || lra. Qed.

Lemma Rltb_false (a b : R) : Rltb a b = false <-> ~ a < b.
Proof. unfold Rltb; destruct (Rlt_dec a b); split; intros; congruence || tauto. Qed.

Lemma Rgtb_true (a b : R) : Rgtb a b = true <-> a > b.
Proof. unfold Rgtb; destruct (Rgt_dec a b); split; intros; congruence || lra. Qed.

Lemma Rgtb_false (a b : R) : Rgtb a b = false <-> a <= b.
Proof. unfold Rgtb; destruct (Rgt_dec a b); split; intros; congruence || lra. Qed.

Lemma Rgeb_true (a b : R) : Rgeb a b = true <-> a >= b.
Proof. unfold Rgeb; destruct (Rge_dec a b); split; intros; congruence || lra. Qed.

Lemma Rgeb_false (a b : R) : Rgeb a b = false <-> a < b.
Proof. unfold Rgeb; destruct (Rge_dec a b); split; intros; congruence || lra. Qed.

(** ** The loop body, case by case *)

Ltac unfold_js :=
  unfold handBody, handednessAt, bind, deref, ret,
    setStatus, setPosition, setRotationX, setRotationY, setScale.

(** Case analysis on what the body reads: the entry of [handedness] and
    the three landmarks. *)
Ltac read_hand H :=
  unfold readHand in H; unfold_js;
  match type of H with
  | context [nth_error (handedness ?r) ?i] =>
      destruct (nth_error (handedness r) i) as [[|?k ?ks]|]
  end;
  match type of H with
  | context [nth_error ?l 9%nat] =>
      generalize dependent (nth_error l 9%nat);
      generalize dependent (nth_error l 4%nat);
      generalize dependent (nth_error l 8%nat);
      intros [?|] [?|] [?|] H
  | _ => idtac
  end;
  simpl in *; try discriminate; try reflexivity.

Lemma handBody_unreadable vWidth result i lms s :
  readHand result i lms = None ->
  handBody vWidth result i lms s = (Throw, s).
Proof.
  intros H. read_hand H.
Qed.

Section OneHand.
Variables (vWidth : R) (result : HandLandmarkerResult) (i : nat).
Variables (lms : list HandLandmark.t) (o : Observation) (s : Store).
Hypothesis Hread : readHand result i lms = Some o.

Lemma handBody_left_pinch :
  hand o = "Left"%string -> pinchOf o < 0.05 ->
  handBody vWidth result i lms s =
  (Normal tt,
   {| earthControl :=
        {| rotation := rotation (earthControl s); scale := scale (earthControl s);
           position := XY.mk ((visualX o - 0.5) * vWidth)
                             (- (visualY o - 0.5) * vHeight);
           activeRegion := activeRegion (earthControl s) |};
      statusString := "左手: 拖拽中" |}).
Proof.
  intros Hh Hp. revert Hh Hp. pose proof Hread as H. read_hand H.
  injection H as <-; simpl; intros Hh Hp.
  rewrite Hh; simpl.
  apply Rltb_true in Hp; unfold pinchOf in Hp; simpl in Hp; rewrite Hp.
  reflexivity.
Qed.

Lemma handBody_left_idle :
  hand o = "Left"%string -> ~ pinchOf o < 0.05 ->
  handBody vWidth result i lms s =
  (Normal tt,
   {| earthControl := earthControl s; statusString := "左手: 待命 (捏合以拖拽)" |}).
Proof.
  intros Hh Hp. revert Hh Hp. pose proof Hread as H. read_hand H.
  injection H as <-; simpl; intros Hh Hp.
  rewrite Hh; simpl.
  apply Rltb_false in Hp; unfold pinchOf in Hp; simpl in Hp; rewrite Hp.
  reflexivity.
Qed.

Lemma handBody_right :
  hand o = "Right"%string ->
  handBody vWidth result i lms s =
  (Normal tt,
   {| earthControl :=
        {| rotation := XY.mk ((visualY o - 0.5) * 4) ((visualX o - 0.5) * 6);
           scale := newScale (pinchOf o);
           position := position (earthControl s);
           activeRegion := activeRegion (earthControl s) |};
      statusString := "右手: 旋转/缩放" |}).
Proof.
  intros Hh. revert Hh. pose proof Hread as H. read_hand H.
  injection H as <-; simpl; intros Hh.
  rewrite Hh; simpl.
  reflexivity.
Qed.

Lemma handBody_other :
  hand o <> "Left"%string -> hand o <> "Right"%string ->
  handBody vWidth result i lms s = (Normal tt, s).
Proof.
  intros Hl Hr. revert Hl Hr. pose proof Hread as H. read_hand H.
  injection H as <-; simpl; intros Hl Hr.
  apply String.eqb_neq in Hl, Hr. rewrite Hl, Hr.
  reflexivity.
Qed.
End OneHand.

(** ** The scale mapping *)

Lemma pinchDistance_nonneg (a b : HandLandmark.t) : 0 <= pinchDistance a b.
Proof. unfold pinchDistance; apply sqrt_pos. Qed.

Lemma newScale_clamp (d : R) : newScale d = spec_computedScale d.
Proof.
  unfold newScale, spec_computedScale, spec_clamp, Rmax, Rmin.
  destruct (Rle_dec 3.5 (0.5 + d * 10)),
           (Rlt_dec (0.5 + d * 10) 0.5),
           (Rgt_dec (0.5 + d * 10) 3.5);
    repeat (destruct Rle_dec); lra.
Qed.

Lemma newScale_range (d : R) : 0.5 <= newScale d <= 3.5.
Proof.
  unfold newScale.
  apply Rmax_case_strong; apply Rmin_case_strong; intros; lra.
Qed.

Lemma newScale_mono (d1 d2 : R) : d1 <= d2 -> newScale d1 <= newScale d2.
Proof.
  intros H; unfold newScale.
  apply Rle_max_compat_l, Rle_min_compat_l; lra.
Qed.

Lemma rightHand_read :
  readHand rightHandResult 0 rightHandLandmarks = Some rightHandObservation.
Proof. reflexivity. Qed.

Lemma rightHand_pinch : pinchOf rightHandObservation = 0.25.
Proof.
  unfold pinchOf, pinchDistance; simpl.
  replace ((0.5 - 0.25) * ((0.5 - 0.25) * 1) + (0.5 - 0.5) * ((0.5 - 0.5) * 1))
    with (0.25 ^ 2) by (simpl; lra).
  apply sqrt_pow2; lra.
Qed.

(** C1: for a right hand, the scale written to the control state is
    [clamp(0.5 + d*10, 0.5, 3.5)] of its pinch distance [d >= 0]; the
    mapping is monotonic non-decreasing in [d] and its values lie in
    [[0.5, 3.5]]. *)
Theorem right_hand_scale_is_clamped
    (vWidth : R) (result : HandLandmarkerResult) (i : nat)
    (lms : list HandLandmark.t) (o : Observation) (s : Store) :
  readHand result i lms = Some o ->
  hand o = "Right"%string ->
  let d := pinchOf o in
  let s' := snd (handBody vWidth result i lms s) in
  0 <= d /\
  scale (earthControl s') = spec_clamp (0.5 + d * 10) 0.5 3.5 /\
  (forall d1 d2 : R, d1 <= d2 ->
     spec_clamp (0.5 + d1 * 10) 0.5 3.5 <= spec_clamp (0.5 + d2 * 10) 0.5 3.5) /\
  (forall d' : R, 0.5 <= spec_clamp (0.5 + d' * 10) 0.5 3.5 <= 3.5).
Proof.
  intros Hread Hright d s'; subst d s'.
  rewrite (handBody_right vWidth result i lms o s Hread Hright); simpl.
  repeat split.
  - apply pinchDistance_nonneg.
  - apply newScale_clamp.
  - intros d1 d2 Hd. pose proof (newScale_mono d1 d2 Hd) as Hm.
    now rewrite !newScale_clamp in Hm.
  - pose proof (newScale_range d') as Hr. rewrite newScale_clamp in Hr. apply Hr.
  - pose proof (newScale_range d') as Hr. rewrite newScale_clamp in Hr. apply Hr.
Qed.

Lemma right_hand_scale_is_clamped_witness :
  readHand rightHandResult 0 rightHandLandmarks = Some rightHandObservation /\
  scale (earthControl
           (snd (handBody 4.14 rightHandResult 0 rightHandLandmarks
                   (mkStore earthControl_init ""))))
  = spec_clamp (0.5 + pinchOf rightHandObservation * 10) 0.5 3.5.
Proof.
  split; [reflexivity|].
  apply (right_hand_scale_is_clamped 4.14 rightHandResult 0 rightHandLandmarks
           rightHandObservation (mkStore earthControl_init "")
           rightHand_read eq_refl).
Defined.

(** C2: for a right hand whose palm centre lies in the unit square, the
    rotation written is [y = (visualX - 0.5) * 6], [x = (visualY - 0.5) * 4]
    with [visualX = 1 - palm.x] and [visualY = palm.y]; hence [y] lies in
    [[-3, 3]] and [x] in [[-2, 2]]. *)
Theorem right_hand_rotation_linear
    (vWidth : R) (result : HandLandmarkerResult) (i : nat)
    (lms : list HandLandmark.t) (o : Observation) (s : Store) :
  readHand result i lms = Some o ->
  hand o = "Right"%string ->
  0 <= HandLandmark.x (palmCenter o) <= 1 ->
  0 <= HandLandmark.y (palmCenter o) <= 1 ->
  let r := rotation (earthControl (snd (handBody vWidth result i lms s))) in
  XY.y r = (visualX o - 0.5) * 6 /\
  XY.x r = (visualY o - 0.5) * 4 /\
  -3 <= XY.y r <= 3 /\
  -2 <= XY.x r <= 2.
Proof.
  intros Hread Hright Hx Hy r; subst r.
  rewrite (handBody_right vWidth result i lms o s Hread Hright); simpl.
  unfold visualX, visualY. repeat split; lra.
Qed.

Lemma right_hand_rotation_linear_witness :
  let r := rotation (earthControl
             (snd (handBody 4.14 rightHandResult 0 rightHandLandmarks
                     (mkStore earthControl_init "")))) in
  XY.y r = (visualX rightHandObservation - 0.5) * 6 /\
  XY.x r = (visualY rightHandObservation - 0.5) * 4 /\
  -3 <= XY.y r <= 3 /\
  -2 <= XY.x r <= 2.
Proof.
  apply (right_hand_rotation_linear 4.14 rightHandResult 0 rightHandLandmarks
           rightHandObservation (mkStore earthControl_init "")
           rightHand_read eq_refl); simpl; lra.
Defined.

(** ** The left hand: drag only while pinching *)

Lemma leftIdle_pinch : pinchOf leftIdleObservation = 0.25.
Proof. exact rightHand_pinch. Qed.

(** C3: a left hand mutates [position] only when it is pinching (pinch
    distance below 0.05); a left hand that is present but not pinching
    leaves [position], and the whole control state, as it was. *)
Theorem left_hand_moves_only_when_pinching
    (vWidth : R) (result : HandLandmarkerResult) (i : nat)
    (lms : list HandLandmark.t) (o : Observation) (s : Store) :
  readHand result i lms = Some o ->
  hand o = "Left"%string ->
  let c := earthControl s in
  let c' := earthControl (snd (handBody vWidth result i lms s)) in
  (~ spec_isPinching o -> c' = c) /\
  (position c' <> position c -> spec_isPinching o) /\
  (spec_isPinching o ->
     position c' = XY.mk ((visualX o - 0.5) * vWidth)
                         (- (visualY o - 0.5) * vHeight) /\
     rotation c' = rotation c /\ scale c' = scale c).
Proof.
  intros Hread Hleft c c'; subst c c'. unfold spec_isPinching, spec_PINCH_THRESHOLD.
  destruct (Rlt_dec (pinchOf o) 0.05) as [Hp|Hp].
  - rewrite (handBody_left_pinch vWidth result i lms o s Hread Hleft Hp); simpl.
    repeat split; auto; tauto.
  - rewrite (handBody_left_idle vWidth result i lms o s Hread Hleft Hp); simpl.
    repeat split; auto; tauto.
Qed.

Lemma left_hand_moves_only_when_pinching_witness :
  ~ spec_isPinching leftIdleObservation /\
  earthControl (snd (handBody 4.14 leftIdleResult 0 rightHandLandmarks
                       (mkStore earthControl_init "")))
  = earthControl_init.
Proof.
  assert (Hidle : ~ spec_isPinching leftIdleObservation).
  { unfold spec_isPinching, spec_PINCH_THRESHOLD.
    rewrite leftIdle_pinch. lra. }
  split; [exact Hidle|].
  apply (proj1 (left_hand_moves_only_when_pinching 4.14 leftIdleResult 0
                  rightHandLandmarks leftIdleObservation
                  (mkStore earthControl_init "") eq_refl eq_refl) Hidle).
Defined.

(** ** The right-hand scenario of the document *)

(** The scenario as it is written: palm at [(1.0, 0.5)], pinch distance
    0.25, expected [rotation.y = 3].  The concrete right hand above meets
    the premises and gets [rotation.y = -3], since [visualX = 1 - 1.0]. *)
Lemma right_hand_scenario_counterexample :
  let c' := earthControl
              (snd (handBody 4.14 rightHandResult 0 rightHandLandmarks
                      (mkStore earthControl_init ""))) in
  readHand rightHandResult 0 rightHandLandmarks = Some rightHandObservation /\
  hand rightHandObservation = "Right"%string /\
  HandLandmark.x (palmCenter rightHandObservation) = 1.0 /\
  HandLandmark.y (palmCenter rightHandObservation) = 0.5 /\
  pinchOf rightHandObservation = 0.25 /\
  XY.y (rotation c') = -3 /\
  XY.y (rotation c') <> 3.
Proof.
  rewrite (handBody_right 4.14 rightHandResult 0 rightHandLandmarks
             rightHandObservation _ rightHand_read eq_refl).
  unfold visualX; simpl. repeat split; try lra. apply rightHand_pinch.
Qed.

(** C8 (amended): for a right hand with palm centre [(1.0, 0.5)] and pinch
    distance 0.25 the loop writes [rotation.y = -3] (the x coordinate is
    mirrored before it is mapped) and [scale = 3.0]. *)
Theorem right_hand_scenario
    (vWidth : R) (result : HandLandmarkerResult) (i : nat)
    (lms : list HandLandmark.t) (o : Observation) (s : Store) :
  readHand result i lms = Some o ->
  hand o = "Right"%string ->
  HandLandmark.x (palmCenter o) = 1.0 ->
  HandLandmark.y (palmCenter o) = 0.5 ->
  pinchOf o = 0.25 ->
  let c' := earthControl (snd (handBody vWidth result i lms s)) in
  XY.y (rotation c') = -3 /\ scale c' = 3.0.
Proof.
  intros Hread Hright Hx Hy Hd c'; subst c'.
  rewrite (handBody_right vWidth result i lms o s Hread Hright); simpl.
  unfold visualX. rewrite Hx, Hd. split; [lra|].
  unfold newScale. apply Rmax_case_strong; apply Rmin_case_strong; intros; lra.
Qed.

Lemma right_hand_scenario_witness :
  let c' := earthControl
              (snd (handBody 4.14 rightHandResult 0 rightHandLandmarks
                      (mkStore earthControl_init ""))) in
  XY.y (rotation c') = -3 /\ scale c' = 3.0.
Proof.
  apply (right_hand_scenario 4.14 rightHandResult 0 rightHandLandmarks
           rightHandObservation (mkStore earthControl_init "")
           rightHand_read eq_refl);
    [simpl; lra | simpl; lra | exact rightHand_pinch].
Defined.

(** ** What one hand can do to the control state *)

Lemma handBody_effect vWidth result i lms s :
  HandEffect vWidth result i lms (earthControl s)
    (earthControl (snd (handBody vWidth result i lms s))).
Proof.
  destruct (readHand result i lms) as [o|] eqn:Hread.
  - destruct (string_dec (hand o) "Left") as [Hl|Hl].
    + destruct (Rlt_dec (pinchOf o) 0.05) as [Hp|Hp].
      * rewrite (handBody_left_pinch _ _ _ _ _ s Hread Hl Hp).
        now apply Drag with o.
      * rewrite (handBody_left_idle _ _ _ _ _ s Hread Hl Hp).
        now apply NoWrite.
    + destruct (string_dec (hand o) "Right") as [Hr|Hr].
      * rewrite (handBody_right _ _ _ _ _ s Hread Hr).
        now apply RotateScale with o.
      * rewrite (handBody_other _ _ _ _ _ s Hread Hl Hr).
        now apply NoWrite.
  - rewrite (handBody_unreadable _ _ _ _ s Hread). now apply NoWrite.
Qed.

(** One step of the [for] loop. *)
Lemma forHands_cons vWidth result i lms rest s :
  forHands vWidth result i (lms :: rest) s =
  match handBody vWidth result i lms s with
  | (Normal _, s1) => forHands vWidth result (S i) rest s1
  | (Throw, s1) => (Throw, s1)
  end.
Proof. reflexivity. Qed.

(** A property of the control state that every hand keeps is kept by the
    whole loop, whether it completes or throws. *)
Lemma forHands_invariant (P : EarthControlState -> Prop) vWidth result :
  (forall i lms s, P (earthControl s) ->
     P (earthControl (snd (handBody vWidth result i lms s)))) ->
  forall hands i s, P (earthControl s) ->
    P (earthControl (snd (forHands vWidth result i hands s))).
Proof.
  intros Hstep hands; induction hands as [|lms rest IH]; intros i s Hs.
  - exact Hs.
  - rewrite forHands_cons.
    specialize (Hstep i lms s Hs).
    destruct (handBody vWidth result i lms s) as [[[]|] s1]; simpl in *; auto.
Qed.

(** What [renderLoop] leaves in the control state, in terms of the loop. *)
Lemma renderLoop_control (f : Frame) (a : AppState) :
  control (fst (renderLoop f a)) = control a \/
  control (fst (renderLoop f a)) =
    earthControl
      (snd (forHands (vHeight * (innerWidth f / innerHeight f)) (detection f) 0
              (detectedHands (detection f))
              {| earthControl := control a; statusString := "" |})).
Proof.
  unfold renderLoop.
  destruct (negb (videoMounted f) || negb (canvasMounted f)); [now left|].
  destruct (negb (contextAvailable f)); [now left|].
  destruct (detectedHands (detection f)) as [|lms rest]; [now left|].
  right.
  destruct (forHands _ _ _ _ _) as [[[]|] s1]; reflexivity.
Qed.

(** ** Frames without hands *)

Lemma zeroHands_detected (f : Frame) :
  zeroHands f -> detectedHands (detection f) = [].
Proof. unfold detectedHands; intros [H|H]; now rewrite H. Qed.

Lemma renderLoop_zeroHands (f : Frame) (a : AppState) :
  zeroHands f -> control (fst (renderLoop f a)) = control a.
Proof.
  intros H. destruct (renderLoop_control f a) as [E|E]; [exact E|].
  rewrite E, (zeroHands_detected f H). reflexivity.
Qed.

(** C4: a frame in which zero hands are detected leaves every field of the
    control state as it was, and so does any number of such frames in a
    row. *)
Theorem handless_frames_keep_control (frames : list Frame) (a : AppState) :
  Forall zeroHands frames ->
  control (runFrames frames a) = control a /\
  rotation (control (runFrames frames a)) = rotation (control a) /\
  scale (control (runFrames frames a)) = scale (control a) /\
  position (control (runFrames frames a)) = position (control a).
Proof.
  intros H.
  assert (E : control (runFrames frames a) = control a).
  { revert a; induction H as [|f rest Hf Hrest IH]; intros a; [reflexivity|].
    simpl. pose proof (renderLoop_zeroHands f a Hf) as Hc.
    destruct (renderLoop f a) as [a' []]; simpl in Hc;
      [rewrite IH|..]; exact Hc. }
  rewrite E; auto.
Qed.

Lemma handless_frames_keep_control_witness :
  control (runFrames [handlessFrame; absentLandmarksFrame; handlessFrame] app_init)
  = earthControl_init.
Proof.
  apply (handless_frames_keep_control
           [handlessFrame; absentLandmarksFrame; handlessFrame] app_init).
  repeat apply Forall_cons; try apply Forall_nil;
    unfold zeroHands; simpl; auto.
Defined.

(** ** The scale invariant *)

Lemma handBody_scaleInRange vWidth result i lms s :
  scaleInRange (earthControl s) ->
  scaleInRange (earthControl (snd (handBody vWidth result i lms s))).
Proof.
  intros Hs.
  destruct (handBody_effect vWidth result i lms s) as [E|o _ _ _ E|o _ _ E];
    rewrite E; unfold scaleInRange; simpl; auto using newScale_range.
Qed.

Lemma renderLoop_scaleInRange (f : Frame) (a : AppState) :
  scaleInRange (control a) -> scaleInRange (control (fst (renderLoop f a))).
Proof.
  intros Hs. destruct (renderLoop_control f a) as [E|E]; rewrite E; [exact Hs|].
  apply forHands_invariant; [|exact Hs].
  intros; now apply handBody_scaleInRange.
Qed.

Lemma runFrames_scaleInRange (frames : list Frame) (a : AppState) :
  scaleInRange (control a) -> scaleInRange (control (runFrames frames a)).
Proof.
  revert a; induction frames as [|f rest IH]; intros a Hs; [exact Hs|].
  simpl. pose proof (renderLoop_scaleInRange f a Hs) as Hc.
  destruct (renderLoop f a) as [a' []]; simpl in Hc; auto.
Qed.

(** Over real numbers, where no coordinate can be [NaN]: [scale] lies in
    [[0.5, 3.5]] at session start, every call of [renderLoop] keeps it
    there, and so it holds after any run of frames from the start.  The
    loop over numbers with NaN and infinities is treated further down. *)
Theorem scale_invariant :
  scaleInRange earthControl_init /\
  (forall (f : Frame) (a : AppState),
     scaleInRange (control a) -> scaleInRange (control (fst (renderLoop f a)))) /\
  (forall frames : list Frame,
     scaleInRange (control (runFrames frames app_init))).
Proof.
  assert (H0 : scaleInRange earthControl_init)
    by (unfold scaleInRange; simpl; lra).
  split; [exact H0|]. split.
  - exact renderLoop_scaleInRange.
  - intros frames. now apply runFrames_scaleInRange.
Qed.

(** ** Every change comes from a hand of the matching role *)

Section Attribution.
Variables (vWidth : R) (result : HandLandmarkerResult).

Lemma handAmong_here i lms rest (P : Observation -> Prop) o :
  readHand result i lms = Some o -> P o -> handAmong result i (lms :: rest) P.
Proof.
  intros Hr Hp. exists 0%nat, lms, o. rewrite Nat.add_0_r. now repeat split.
Qed.

Lemma handAmong_later i lms rest (P : Observation -> Prop) :
  handAmong result (S i) rest P -> handAmong result i (lms :: rest) P.
Proof.
  intros (j & l & o & Hn & Hr & Hp). exists (S j), l, o.
  rewrite Nat.add_succ_r. now repeat split.
Qed.

Lemma forHands_position hands : forall i s,
  position (earthControl (snd (forHands vWidth result i hands s)))
    = position (earthControl s) \/
  handAmong result i hands isLeftPinch.
Proof.
  induction hands as [|lms rest IH]; intros i s; [now left|].
  rewrite forHands_cons.
  pose proof (handBody_effect vWidth result i lms s) as He.
  destruct (handBody vWidth result i lms s) as [[[]|] s1]; simpl in He.
  - destruct He as [E|o Hr Hl Hp _|o _ _ E].
    + destruct (IH (S i) s1) as [Hk|Hk].
      * left. now rewrite Hk, E.
      * right. now apply handAmong_later.
    + right. apply handAmong_here with o; [exact Hr|now split].
    + destruct (IH (S i) s1) as [Hk|Hk].
      * left. now rewrite Hk, E.
      * right. now apply handAmong_later.
  - destruct He as [E|o Hr Hl Hp _|o _ _ E]; simpl.
    + left. now rewrite E.
    + right. apply handAmong_here with o; [exact Hr|now split].
    + left. now rewrite E.
Qed.

Lemma forHands_rotation_scale hands : forall i s,
  (rotation (earthControl (snd (forHands vWidth result i hands s)))
     = rotation (earthControl s) /\
   scale (earthControl (snd (forHands vWidth result i hands s)))
     = scale (earthControl s)) \/
  handAmong result i hands isRight.
Proof.
  induction hands as [|lms rest IH]; intros i s; [now left|].
  rewrite forHands_cons.
  pose proof (handBody_effect vWidth result i lms s) as He.
  destruct (handBody vWidth result i lms s) as [[[]|] s1]; simpl in He.
  - destruct He as [E|o _ _ _ E|o Hr Hright _].
    + destruct (IH (S i) s1) as [[Hk1 Hk2]|Hk].
      * left. now rewrite Hk1, Hk2, E.
      * right. now apply handAmong_later.
    + destruct (IH (S i) s1) as [[Hk1 Hk2]|Hk].
      * left. now rewrite Hk1, Hk2, E.
      * right. now apply handAmong_later.
    + right. now apply handAmong_here with o.
  - destruct He as [E|o _ _ _ E|o Hr Hright _]; simpl.
    + left. now rewrite E.
    + left. now rewrite E.
    + right. now apply handAmong_here with o.
Qed.
End Attribution.

(** The document's defaults fail on the position: the control state starts
    at [x = -2.5], not at the world origin. *)
Lemma session_defaults_counterexample :
  rotation earthControl_init = XY.mk 0 0 /\
  scale earthControl_init = 1 /\
  XY.x (position earthControl_init) = -2.5 /\
  position earthControl_init <> XY.mk 0 0.
Proof.
  simpl. repeat split. intros H. injection H as H. lra.
Qed.

(** C9 (amended): the control state starts with rotation [(0, 0)], scale 1
    and position [(-2.5, 0)]; afterwards no frame resets it: [position]
    changes only in a frame that holds a pinching left hand, [rotation] and
    [scale] only in a frame that holds a right hand. *)
Theorem session_defaults_and_no_reset :
  earthControl_init =
    {| rotation := XY.mk 0 0; scale := 1; position := XY.mk (-2.5) 0;
       activeRegion := "ATLANTIC" |} /\
  forall (f : Frame) (a : AppState),
    let c := control a in
    let c' := control (fst (renderLoop f a)) in
    (position c' = position c \/ handInFrame f isLeftPinch) /\
    ((rotation c' = rotation c /\ scale c' = scale c) \/ handInFrame f isRight).
Proof.
  split; [reflexivity|]. intros f a c c'; subst c c'.
  destruct (renderLoop_control f a) as [E|E]; rewrite E; [now split; left|].
  split.
  - destruct (forHands_position (vHeight * (innerWidth f / innerHeight f))
                (detection f) (detectedHands (detection f)) 0
                {| earthControl := control a; statusString := "" |}) as [H|H].
    + now left.
    + right. exact H.
  - destruct (forHands_rotation_scale (vHeight * (innerWidth f / innerHeight f))
                (detection f) (detectedHands (detection f)) 0
                {| earthControl := control a; statusString := "" |}) as [H|H].
    + now left.
    + right. exact H.
Qed.

(** ** The depth coordinate is never read *)

Lemma pinchDistance_sameXY t i t' i' :
  sameXY t t' -> sameXY i i' -> pinchDistance t i = pinchDistance t' i'.
Proof.
  intros [Hx Hy] [Hx' Hy']; unfold pinchDistance.
  now rewrite Hx, Hy, Hx', Hy'.
Qed.

Lemma Forall2_nth_error {A : Type} (Q : A -> A -> Prop) (l1 l2 : list A) :
  Forall2 Q l1 l2 ->
  forall n : nat,
    match nth_error l1 n, nth_error l2 n with
    | Some p, Some q => Q p q
    | None, None => True
    | _, _ => False
    end.
Proof.
  induction 1 as [|p q l1 l2 Hpq _ IH]; intros [|n]; simpl; auto.
  apply IH.
Qed.

Lemma handBody_sameXY vWidth r1 r2 i lms1 lms2 s :
  handedness r1 = handedness r2 ->
  Forall2 sameXY lms1 lms2 ->
  handBody vWidth r1 i lms1 s = handBody vWidth r2 i lms2 s.
Proof.
  intros Hh Hl.
  pose proof (Forall2_nth_error _ _ _ Hl 9) as H9.
  pose proof (Forall2_nth_error _ _ _ Hl 4) as H4.
  pose proof (Forall2_nth_error _ _ _ Hl 8) as H8.
  unfold_js. rewrite Hh.
  generalize dependent (nth_error lms1 9); generalize dependent (nth_error lms2 9).
  generalize dependent (nth_error lms1 4); generalize dependent (nth_error lms2 4).
  generalize dependent (nth_error lms1 8); generalize dependent (nth_error lms2 8).
  intros [x'|] [x|] H8 [t'|] [t|] H4 [p'|] [p|] H9; try contradiction;
    destruct (nth_error (handedness r2) i) as [[|k ks]|]; simpl; auto.
  rewrite (pinchDistance_sameXY t x t' x' H4 H8).
  destruct H9 as [-> ->]. reflexivity.
Qed.

Lemma forHands_sameXY vWidth r1 r2 hands1 hands2 :
  handedness r1 = handedness r2 ->
  Forall2 (Forall2 sameXY) hands1 hands2 ->
  forall i s, forHands vWidth r1 i hands1 s = forHands vWidth r2 i hands2 s.
Proof.
  intros Hh; induction 1 as [|l1 l2 rest1 rest2 Hl _ IH]; intros i s;
    [reflexivity|].
  rewrite !forHands_cons, (handBody_sameXY vWidth r1 r2 i l1 l2 s Hh Hl).
  destruct (handBody vWidth r2 i l2 s) as [[[]|] s1]; auto.
Qed.

(** C10: the pinch distance is the Euclidean distance of thumb tip and
    index tip in the [x]-[y] plane, and a frame whose landmarks differ only
    in their [z] coordinates is processed to the same control state, the
    same status (so the same pinch classification) and the same exit. *)
Theorem pinch_ignores_z (f : Frame) (r : HandLandmarkerResult) (a : AppState) :
  sameUpToZ (detection f) r ->
  renderLoop (withDetection f r) a = renderLoop f a /\
  (forall tx ty tz ix iy iz : R,
     pinchDistance (HandLandmark.mk tx ty tz) (HandLandmark.mk ix iy iz)
     = sqrt ((tx - ix) ^ 2 + (ty - iy) ^ 2)).
Proof.
  intros [Hh Hl]. split; [|reflexivity].
  unfold renderLoop, withDetection, detectedHands;
    cbn [videoMounted canvasMounted contextAvailable innerWidth innerHeight
         detection].
  destruct (negb (videoMounted f) || negb (canvasMounted f)); [reflexivity|].
  destruct (negb (contextAvailable f)); [reflexivity|].
  destruct (landmarks (detection f)) as [h1|], (landmarks r) as [h2|];
    try contradiction; [|reflexivity].
  pose proof (forHands_sameXY (vHeight * (innerWidth f / innerHeight f))
                (detection f) r h1 h2 Hh Hl 0%nat) as Hloop.
  destruct Hl as [|l1 l2 rest1 rest2 Hl Hrest]; [reflexivity|].
  now rewrite Hloop.
Qed.

Lemma pinch_ignores_z_witness :
  renderLoop (withDetection rightHandFrame rightHandResultDeep) app_init
  = renderLoop rightHandFrame app_init.
Proof.
  apply (pinch_ignores_z rightHandFrame rightHandResultDeep app_init).
  split; [reflexivity|]. simpl.
  apply Forall2_cons; [|apply Forall2_nil].
  repeat (apply Forall2_cons; [split; reflexivity|]). apply Forall2_nil.
Defined.

(** ** The smoothing step *)

Lemma Vector3_lerp_zero (v t : Vector3.t) : Vector3.lerp v t 0 = v.
Proof. destruct v, t; unfold Vector3.lerp; simpl; f_equal; lra. Qed.

Lemma MathUtils_lerp_zero (x y : R) : MathUtils.lerp x y 0 = x.
Proof. unfold MathUtils.lerp; lra. Qed.

Lemma Vector3_lerp_fixed (v t : Vector3.t) (alpha : R) :
  alpha <> 0 -> (Vector3.lerp v t alpha = v <-> v = t).
Proof.
  intros Ha; destruct v as [a b c], t as [a' b' c']; unfold Vector3.lerp; simpl.
  split; intros H; injection H as H1 H2 H3.
  - f_equal; nra.
  - subst; f_equal; lra.
Qed.

Lemma MathUtils_lerp_fixed (x y alpha : R) :
  alpha <> 0 -> (MathUtils.lerp x y alpha = x <-> x = y).
Proof. intros Ha; unfold MathUtils.lerp; split; intros H; nra. Qed.

(** With zero elapsed time and zero delta the tick still moves the earth's
    scale a tenth of the way to its target. *)
Lemma smoothing_zero_elapsed_counterexample :
  earthScaleOf scene_init = Some (Vector3.mk 1 1 1) /\
  earthScaleOf (fst (useFrame doubledControl 0 0 scene_init))
    = Some (Vector3.mk 1.1 1.1 1.1) /\
  Vector3.mk 1.1 1.1 1.1 <> Vector3.mk 1 1 1.
Proof.
  split; [reflexivity|]. split.
  - unfold earthScaleOf, useFrame, smoothStep, Vector3.lerp; simpl.
    do 2 f_equal; lra.
  - intros H; injection H as H _ _; lra.
Qed.

(** C7 (amended): the interpolation primitives are the identity at
    [alpha = 0], but the tick calls them with the fixed alphas 0.2
    (position) and 0.1 (scale, rotation) and reads no elapsed time for
    them: whatever [elapsedTime] and [delta] are, each smoothed field moves
    by that fraction of its distance to the target, and it is left
    unchanged exactly when it already equals its target. *)
Theorem smoothing_fixed_alpha :
  (forall v t : Vector3.t, Vector3.lerp v t 0 = v) /\
  (forall x y : R, MathUtils.lerp x y 0 = x) /\
  forall (c : EarthControlState) (elapsedTime delta : R)
         (group earth clouds rings : Object3D.t),
    let targetPos := Vector3.mk (XY.x (position c)) (XY.y (position c)) 0 in
    let targetScale := Vector3.mk (scale c) (scale c) (scale c) in
    exists group' earth' clouds' rings' : Object3D.t,
      fst (useFrame c elapsedTime delta
             (mkSceneRefs (Some group) (Some earth) (Some clouds) (Some rings)))
      = mkSceneRefs (Some group') (Some earth') (Some clouds') (Some rings') /\
      Object3D.position group'
        = Vector3.lerp (Object3D.position group) targetPos 0.2 /\
      Object3D.scale earth'
        = Vector3.lerp (Object3D.scale earth) targetScale 0.1 /\
      Euler.y (Object3D.rotation earth')
        = Euler.y (Object3D.rotation earth)
          + (XY.y (rotation c) - Euler.y (Object3D.rotation earth)) * 0.1 /\
      Euler.x (Object3D.rotation earth')
        = Euler.x (Object3D.rotation earth)
          + (XY.x (rotation c) - Euler.x (Object3D.rotation earth)) * 0.1 /\
      (Object3D.position group' = Object3D.position group
         <-> Object3D.position group = targetPos) /\
      (Object3D.scale earth' = Object3D.scale earth
         <-> Object3D.scale earth = targetScale) /\
      (Euler.y (Object3D.rotation earth') = Euler.y (Object3D.rotation earth)
         <-> Euler.y (Object3D.rotation earth) = XY.y (rotation c)) /\
      (Euler.x (Object3D.rotation earth') = Euler.x (Object3D.rotation earth)
         <-> Euler.x (Object3D.rotation earth) = XY.x (rotation c)).
Proof.
  split; [exact Vector3_lerp_zero|]. split; [exact MathUtils_lerp_zero|].
  intros c elapsedTime delta group earth clouds rings targetPos targetScale.
  unfold useFrame; simpl.
  do 4 eexists. split; [reflexivity|]. simpl.
  split; [reflexivity|]. split; [reflexivity|].
  split; [unfold MathUtils.lerp; lra|]. split; [unfold MathUtils.lerp; lra|].
  split; [apply Vector3_lerp_fixed; lra|].
  split; [apply Vector3_lerp_fixed; lra|].
  split; apply MathUtils_lerp_fixed; lra.
Qed.

(** ** Region bucketing *)

Lemma Rtrunc_nonneg (q : R) :
  0 <= q -> IZR (Rtrunc q) <= q < IZR (Rtrunc q) + 1.
Proof.
  intros Hq; unfold Rtrunc. destruct (Rle_dec 0 q); [|contradiction].
  destruct (base_Int_part q); lra.
Qed.

Lemma Rtrunc_neg (q : R) :
  q < 0 -> q <= IZR (Rtrunc q) < q + 1.
Proof.
  intros Hq; unfold Rtrunc. destruct (Rle_dec 0 q); [lra|].
  rewrite opp_IZR. destruct (base_Int_part (- q)); lra.
Qed.

Lemma Rtrunc_small (q : R) : 0 <= q < 1 -> Rtrunc q = 0%Z.
Proof.
  intros Hq; unfold Rtrunc. destruct (Rle_dec 0 q); [|lra].
  symmetry; apply Int_part_spec; simpl; lra.
Qed.

Lemma Rtrunc_one : Rtrunc 1 = 1%Z.
Proof.
  unfold Rtrunc. destruct (Rle_dec 0 1); [|lra].
  symmetry; apply Int_part_spec; simpl; lra.
Qed.

Lemma jsRem_range (a n : R) :
  0 < n ->
  (0 <= a -> 0 <= jsRem a n < n) /\ (a < 0 -> - n < jsRem a n <= 0).
Proof.
  intros Hn; unfold jsRem.
  assert (Ha : a = a / n * n) by (field; lra).
  set (q := a / n) in *.
  split; intros H.
  - assert (Hq : 0 <= q).
    { destruct (Rle_dec 0 q); [assumption|]. exfalso. nra. }
    pose proof (Rtrunc_nonneg q Hq). nra.
  - assert (Hq : q < 0).
    { destruct (Rlt_dec q 0); [assumption|]. exfalso. nra. }
    pose proof (Rtrunc_neg q Hq). nra.
Qed.

Lemma normalizedRotation_range (y : R) : 0 <= normalizedRotation y < PI * 2.
Proof.
  pose proof PI_RGT_0 as Hpi.
  assert (Hn : 0 < PI * 2) by lra.
  destruct (jsRem_range y (PI * 2) Hn) as [Hpos Hneg].
  unfold normalizedRotation.
  destruct (Rlt_dec (jsRem y (PI * 2)) 0) as [Hr|Hr].
  - destruct (Rle_dec 0 y) as [Hy|Hy]; [specialize (Hpos Hy); lra|].
    assert (Hy' : y < 0) by lra. specialize (Hneg Hy'). lra.
  - destruct (Rle_dec 0 y) as [Hy|Hy]; [specialize (Hpos Hy); lra|].
    assert (Hy' : y < 0) by lra. specialize (Hneg Hy'). lra.
Qed.

Lemma regionDegrees_range (y : R) : 0 <= regionDegrees y < 360.
Proof.
  pose proof PI_RGT_0 as Hpi.
  pose proof (normalizedRotation_range y) as Hn.
  unfold regionDegrees.
  assert (E : normalizedRotation y * 180 / PI * PI = normalizedRotation y * 180)
    by (field; lra).
  set (deg := normalizedRotation y * 180 / PI) in *.
  split.
  - destruct (Rle_dec 0 deg); [assumption|]. exfalso; nra.
  - destruct (Rlt_dec deg 360); [assumption|]. exfalso; nra.
Qed.

Lemma regionDegrees_radians (d : R) :
  0 <= d < 360 -> regionDegrees (radians d) = d.
Proof.
  intros Hd. pose proof PI_RGT_0 as Hpi.
  unfold regionDegrees, normalizedRotation, jsRem, radians.
  assert (Hq : d * PI / 180 / (PI * 2) = d / 360) by (field; lra).
  rewrite Hq, Rtrunc_small by lra.
  destruct (Rlt_dec _ 0) as [Hr|Hr].
  - exfalso. simpl in Hr. nra.
  - simpl. field. lra.
Qed.

Lemma regionDegrees_zero : regionDegrees 0 = 0.
Proof.
  replace 0 with (radians 0) at 1 by (unfold radians; lra).
  apply regionDegrees_radians; lra.
Qed.

Lemma regionDegrees_full_turn : regionDegrees (2 * PI) = 0.
Proof.
  pose proof PI_RGT_0 as Hpi.
  unfold regionDegrees, normalizedRotation, jsRem.
  replace (2 * PI / (PI * 2)) with 1 by (field; lra).
  rewrite Rtrunc_one.
  destruct (Rlt_dec _ 0) as [Hr|Hr].
  - exfalso. simpl in Hr. lra.
  - simpl. field. lra.
Qed.

Ltac region_cases :=
  unfold regionOfDegrees, Rgtb, Rltb, Rgeb;
  repeat (destruct (Rgt_dec _ _) || destruct (Rlt_dec _ _)
          || destruct (Rge_dec _ _));
  simpl; try reflexivity; try lra.

Lemma regionOfDegrees_cases (deg : R) :
  (deg < 30 \/ 330 < deg -> regionOfDegrees deg = "非洲 / 欧洲"%string) /\
  (30 <= deg < 120 -> regionOfDegrees deg = "美洲 (东部)"%string) /\
  (120 <= deg < 210 -> regionOfDegrees deg = "太平洋"%string) /\
  (210 <= deg < 300 -> regionOfDegrees deg = "亚洲 / 澳洲"%string) /\
  (300 <= deg <= 330 -> regionOfDegrees deg = "大西洋"%string).
Proof.
  repeat split; intros H; region_cases.
Qed.

(** The angles of 310 and 340 degrees lie in one cell of the partition that
    the four boundaries cut out, and get two different labels. *)
Lemma region_four_boundaries_counterexample :
  spec_cell (regionDegrees (radians 310)) = spec_cell (regionDegrees (radians 340)) /\
  getRegionFromRotation (radians 310) = "大西洋"%string /\
  getRegionFromRotation (radians 340) = "非洲 / 欧洲"%string /\
  getRegionFromRotation (radians 310) <> getRegionFromRotation (radians 340).
Proof.
  unfold getRegionFromRotation.
  rewrite !regionDegrees_radians by lra.
  assert (E1 : regionOfDegrees 310 = "大西洋"%string) by region_cases.
  assert (E2 : regionOfDegrees 340 = "非洲 / 欧洲"%string) by region_cases.
  rewrite E1, E2. repeat split.
  - unfold spec_cell, Rltb.
    repeat (destruct (Rlt_dec _ _); try lra). reflexivity.
  - discriminate.
Qed.

(** C6 (amended): [getRegion(0) = getRegion(2π)]; for every y-rotation the
    normalized angle lies in [[0°, 360°)] and the boundaries at 30°, 120°,
    210°, 300° and 330° split it into the five labels: below 30° or above
    330°, from 30° to 120°, from 120° to 210°, from 210° to 300°, and from
    300° to 330° inclusive. *)
Theorem region_bucketing :
  getRegionFromRotation 0 = getRegionFromRotation (2 * PI) /\
  forall yRotation : R,
    let deg := regionDegrees yRotation in
    let region := getRegionFromRotation yRotation in
    0 <= deg < 360 /\
    (deg < 30 \/ 330 < deg -> region = "非洲 / 欧洲"%string) /\
    (30 <= deg < 120 -> region = "美洲 (东部)"%string) /\
    (120 <= deg < 210 -> region = "太平洋"%string) /\
    (210 <= deg < 300 -> region = "亚洲 / 澳洲"%string) /\
    (300 <= deg <= 330 -> region = "大西洋"%string).
Proof.
  split.
  - unfold getRegionFromRotation.
    now rewrite regionDegrees_zero, regionDegrees_full_turn.
  - intros y deg region; subst deg region. split.
    + apply regionDegrees_range.
    + apply regionOfDegrees_cases.
Qed.

(** ** Normalization of the rotation *)

Lemma jsRem_congruent (a n : R) : jsRem a n = a - IZR (Rtrunc (a / n)) * n.
Proof. unfold jsRem; ring. Qed.

(** Two angles of [[0, 2π)] that differ by a whole number of turns are
    equal. *)
Lemma turn_unique (r1 r2 : R) (m : Z) :
  0 <= r1 < PI * 2 -> 0 <= r2 < PI * 2 ->
  r1 = r2 + IZR m * (PI * 2) -> r1 = r2.
Proof.
  intros H1 H2 E. pose proof PI_RGT_0 as Hpi.
  assert (Hm : (-1 < m < 1)%Z).
  { split; apply lt_IZR.
    - destruct (Rlt_dec (IZR (-1)) (IZR m)) as [|Hn]; [assumption|].
      exfalso. assert (IZR m <= -1) by lra. nra.
    - destruct (Rlt_dec (IZR m) (IZR 1)) as [|Hn]; [assumption|].
      exfalso. assert (1 <= IZR m) by lra. nra. }
  assert (m = 0%Z) by lia. subst m. lra.
Qed.

(** X1: the normalized rotation lies in [[0, 2π)] and differs from the
    rotation by a whole number of turns, for negative rotations too. *)
Theorem normalizedRotation_congruent (yRotation : R) :
  0 <= normalizedRotation yRotation < PI * 2 /\
  exists k : Z, normalizedRotation yRotation = yRotation + IZR k * (PI * 2).
Proof.
  split; [apply normalizedRotation_range|].
  unfold normalizedRotation. rewrite jsRem_congruent.
  set (q := Rtrunc (yRotation / (PI * 2))).
  destruct (Rlt_dec _ 0).
  - exists (1 - q)%Z. rewrite minus_IZR. ring.
  - exists (- q)%Z. rewrite opp_IZR. ring.
Qed.

(** X2: the region label is periodic: adding any whole number of turns to
    the rotation, forwards or backwards, gives the same label. *)
Theorem getRegionFromRotation_periodic (yRotation : R) (turns : Z) :
  getRegionFromRotation (yRotation + IZR turns * (2 * PI))
  = getRegionFromRotation yRotation.
Proof.
  unfold getRegionFromRotation, regionDegrees. do 2 f_equal. f_equal.
  destruct (normalizedRotation_congruent yRotation) as [Hr [k Hk]].
  destruct (normalizedRotation_congruent (yRotation + IZR turns * (2 * PI)))
    as [Hr' [k' Hk']].
  apply (turn_unique _ _ (k' + turns - k)%Z Hr' Hr).
  rewrite Hk', Hk, minus_IZR, plus_IZR. ring.
Qed.

(** ** How a call of the detection loop ends *)

Lemma handBody_completion vWidth result i lms s :
  fst (handBody vWidth result i lms s)
  = if readable result i lms then Normal tt else Throw.
Proof.
  unfold readable.
  destruct (readHand result i lms) as [o|] eqn:Hread.
  - destruct (string_dec (hand o) "Left") as [Hl|Hl].
    + destruct (Rlt_dec (pinchOf o) 0.05) as [Hp|Hp].
      * now rewrite (handBody_left_pinch _ _ _ _ _ s Hread Hl Hp).
      * now rewrite (handBody_left_idle _ _ _ _ _ s Hread Hl Hp).
    + destruct (string_dec (hand o) "Right") as [Hr|Hr].
      * now rewrite (handBody_right _ _ _ _ _ s Hread Hr).
      * now rewrite (handBody_other _ _ _ _ _ s Hread Hl Hr).
  - now rewrite (handBody_unreadable _ _ _ _ s Hread).
Qed.

Lemma forHands_completion vWidth result hands : forall i s,
  fst (forHands vWidth result i hands s)
  = if allReadable result i hands then Normal tt else Throw.
Proof.
  induction hands as [|lms rest IH]; intros i s; [reflexivity|].
  rewrite forHands_cons. simpl allReadable.
  pose proof (handBody_completion vWidth result i lms s) as Hc.
  destruct (handBody vWidth result i lms s) as [[[]|] s1]; simpl in Hc;
    destruct (readable result i lms); try discriminate; simpl; auto.
Qed.

(** The loop over [before ++ after] is the loop over [before] followed, if
    that completes, by the loop over [after]. *)
Lemma forHands_app vWidth result before after : forall i s,
  forHands vWidth result i (before ++ after) s =
  match forHands vWidth result i before s with
  | (Normal _, s1) => forHands vWidth result (i + List.length before) after s1
  | (Throw, s1) => (Throw, s1)
  end.
Proof.
  induction before as [|lms rest IH]; intros i s.
  - simpl. now rewrite Nat.add_0_r.
  - simpl app. rewrite !forHands_cons.
    destruct (handBody vWidth result i lms s) as [[[]|] s1]; [|reflexivity].
    rewrite IH. simpl List.length. now rewrite Nat.add_succ_r.
Qed.

Lemma renderLoop_mounted (f : Frame) (a : AppState) :
  mounted f = true ->
  renderLoop f a =
  match detectedHands (detection f) with
  | [] => ({| control := control a; handDetected := false;
              gestureStatus := "等待信号..." |}, Rescheduled)
  | hands =>
      match forHands (vWidthOf f) (detection f) 0 hands (loopStart a) with
      | (Normal _, s) =>
          ({| control := earthControl s; handDetected := true;
              gestureStatus := statusString s |}, Rescheduled)
      | (Throw, s) =>
          ({| control := earthControl s; handDetected := handDetected a;
              gestureStatus := gestureStatus a |}, Uncaught)
      end
  end.
Proof.
  unfold mounted, renderLoop, vWidthOf, loopStart. intros H.
  apply andb_prop in H as [H Hc]. apply andb_prop in H as [Hv Hk].
  now rewrite Hv, Hk, Hc.
Qed.

Lemma renderLoop_unmounted (f : Frame) (a : AppState) :
  mounted f = false -> renderLoop f a = (a, ReturnedEarly).
Proof.
  unfold mounted, renderLoop.
  destruct (videoMounted f), (canvasMounted f), (contextAvailable f);
    simpl; intros H; try discriminate; reflexivity.
Qed.

(** X3: a call of [renderLoop] returns early exactly when the video, the
    canvas or the drawing context is missing; otherwise it schedules the
    next frame exactly when every detected hand has its handedness entry
    and its landmarks 9, 4 and 8, and dies on a [TypeError] when one has
    not. *)
Theorem renderLoop_exit (f : Frame) (a : AppState) :
  snd (renderLoop f a) =
  if mounted f then
    if allReadable (detection f) 0 (detectedHands (detection f))
    then Rescheduled else Uncaught
  else ReturnedEarly.
Proof.
  destruct (mounted f) eqn:Hm.
  - rewrite (renderLoop_mounted f a Hm).
    pose proof (forHands_completion (vWidthOf f) (detection f)
                  (detectedHands (detection f)) 0 (loopStart a)) as Hc.
    destruct (detectedHands (detection f)) as [|lms rest]; [reflexivity|].
    destruct (allReadable (detection f) 0 (lms :: rest));
      destruct (forHands _ _ _ _ _) as [[[]|] s1]; cbn [fst] in Hc;
      try discriminate; reflexivity.
  - now rewrite (renderLoop_unmounted f a Hm).
Qed.

(** X4: a call that does not schedule the next frame ends the loop for
    good: no later frame is processed, and the hand-detected flag and the
    gesture status shown keep the values they had before the call. *)
Theorem unscheduled_exit_is_final (f : Frame) (rest : list Frame) (a : AppState) :
  snd (renderLoop f a) <> Rescheduled ->
  runFrames (f :: rest) a = fst (renderLoop f a) /\
  handDetected (fst (renderLoop f a)) = handDetected a /\
  gestureStatus (fst (renderLoop f a)) = gestureStatus a.
Proof.
  intros Hexit. simpl runFrames.
  destruct (mounted f) eqn:Hm.
  - rewrite (renderLoop_mounted f a Hm) in *.
    destruct (detectedHands (detection f)) as [|lms more];
      [now contradiction Hexit|].
    destruct (forHands _ _ _ _ _) as [[[]|] s1]; simpl in *;
      [now contradiction Hexit|auto].
  - rewrite (renderLoop_unmounted f a Hm). auto.
Qed.

Lemma unscheduled_exit_is_final_witness :
  runFrames [brokenSecondHandFrame; rightHandFrame] app_init
    = fst (renderLoop brokenSecondHandFrame app_init) /\
  gestureStatus (fst (renderLoop brokenSecondHandFrame app_init))
    = "等待输入..."%string /\
  runFrames [unmountedFrame; rightHandFrame] app_init
    = fst (renderLoop unmountedFrame app_init).
Proof.
  assert (H1 : snd (renderLoop brokenSecondHandFrame app_init) <> Rescheduled)
    by (rewrite renderLoop_exit; discriminate).
  assert (H2 : snd (renderLoop unmountedFrame app_init) <> Rescheduled)
    by (rewrite renderLoop_exit; discriminate).
  split; [|split].
  - apply (unscheduled_exit_is_final brokenSecondHandFrame [rightHandFrame]
             app_init H1).
  - apply (unscheduled_exit_is_final brokenSecondHandFrame [rightHandFrame]
             app_init H1).
  - apply (unscheduled_exit_is_final unmountedFrame [rightHandFrame]
             app_init H2).
Defined.

(** X5: when a hand cannot be read, the writes of the hands before it in
    the same frame are not undone: the control state is the one the loop
    had reached, although the call dies and reports no status. *)
Theorem throw_keeps_earlier_writes (f : Frame) (a : AppState)
    (before after : list (list HandLandmark.t)) (lms : list HandLandmark.t) :
  mounted f = true ->
  detectedHands (detection f) = before ++ lms :: after ->
  allReadable (detection f) 0 before = true ->
  readable (detection f) (List.length before) lms = false ->
  snd (renderLoop f a) = Uncaught /\
  control (fst (renderLoop f a))
  = earthControl (snd (forHands (vWidthOf f) (detection f) 0 before (loopStart a))).
Proof.
  intros Hm Hd Hb Hl.
  rewrite (renderLoop_mounted f a Hm), Hd.
  pose proof (forHands_app (vWidthOf f) (detection f) before (lms :: after) 0
                (loopStart a)) as Happ.
  pose proof (forHands_completion (vWidthOf f) (detection f) before 0
                (loopStart a)) as Hc.
  rewrite Hb in Hc.
  destruct (forHands (vWidthOf f) (detection f) 0 before (loopStart a))
    as [[[]|] s1]; [|discriminate].
  rewrite forHands_cons in Happ. simpl Nat.add in Happ.
  pose proof (handBody_completion (vWidthOf f) (detection f) (List.length before)
                lms s1) as Hh.
  rewrite Hl in Hh.
  assert (Hu : readHand (detection f) (List.length before) lms = None).
  { unfold readable in Hl. now destruct (readHand _ _ _). }
  rewrite (handBody_unreadable _ _ _ _ s1 Hu) in Happ.
  destruct before as [|b bs]; simpl app in *; cbv iota beta;
    rewrite Happ; split; reflexivity.
Qed.

Lemma throw_keeps_earlier_writes_witness :
  snd (renderLoop brokenSecondHandFrame app_init) = Uncaught /\
  control (fst (renderLoop brokenSecondHandFrame app_init))
  = earthControl
      (snd (forHands (vWidthOf brokenSecondHandFrame)
              (detection brokenSecondHandFrame) 0 [rightHandLandmarks]
              (loopStart app_init))).
Proof.
  apply (throw_keeps_earlier_writes brokenSecondHandFrame app_init
           [rightHandLandmarks] [] []); reflexivity.
Defined.

(** ** The writes of a frame do not depend on the state before it *)

Lemma applyPatch_then (p q : Patch) (c : EarthControlState) :
  applyPatch q (applyPatch p c) = applyPatch (thenPatch p q) c.
Proof.
  unfold applyPatch, thenPatch; simpl.
  destruct (newPosition q), (newRotationScale q) as [[r k]|]; reflexivity.
Qed.

Lemma applyPatch_idempotent (p : Patch) (c : EarthControlState) :
  applyPatch p (applyPatch p c) = applyPatch p c.
Proof.
  unfold applyPatch; simpl.
  destruct (newPosition p), (newRotationScale p) as [[r k]|]; reflexivity.
Qed.

Lemma applyPatch_none (c : EarthControlState) :
  applyPatch (mkPatch None None) c = c.
Proof. now destruct c. Qed.

Lemma handBody_patch vWidth result i lms :
  exists p : Patch, forall s : Store,
    earthControl (snd (handBody vWidth result i lms s))
    = applyPatch p (earthControl s).
Proof.
  destruct (readHand result i lms) as [o|] eqn:Hread.
  - destruct (string_dec (hand o) "Left") as [Hl|Hl].
    + destruct (Rlt_dec (pinchOf o) 0.05) as [Hp|Hp].
      * exists (mkPatch (Some (XY.mk ((visualX o - 0.5) * vWidth)
                                     (- (visualY o - 0.5) * vHeight))) None).
        intros s. now rewrite (handBody_left_pinch _ _ _ _ _ s Hread Hl Hp).
      * exists (mkPatch None None). intros s.
        rewrite (handBody_left_idle _ _ _ _ _ s Hread Hl Hp).
        now rewrite applyPatch_none.
    + destruct (string_dec (hand o) "Right") as [Hr|Hr].
      * exists (mkPatch None
                  (Some (XY.mk ((visualY o - 0.5) * 4) ((visualX o - 0.5) * 6),
                         newScale (pinchOf o)))).
        intros s. now rewrite (handBody_right _ _ _ _ _ s Hread Hr).
      * exists (mkPatch None None). intros s.
        rewrite (handBody_other _ _ _ _ _ s Hread Hl Hr).
        now rewrite applyPatch_none.
  - exists (mkPatch None None). intros s.
    rewrite (handBody_unreadable _ _ _ _ s Hread).
    now rewrite applyPatch_none.
Qed.

Lemma forHands_patch vWidth result hands : forall i,
  exists p : Patch, forall s : Store,
    earthControl (snd (forHands vWidth result i hands s))
    = applyPatch p (earthControl s).
Proof.
  induction hands as [|lms rest IH]; intros i.
  - exists (mkPatch None None). intros s. simpl. now rewrite applyPatch_none.
  - destruct (handBody_patch vWidth result i lms) as [p Hp].
    destruct (IH (S i)) as [q Hq].
    destruct (readable result i lms) eqn:Hr.
    + exists (thenPatch p q). intros s. rewrite forHands_cons.
      pose proof (handBody_completion vWidth result i lms s) as Hc.
      specialize (Hp s). rewrite Hr in Hc.
      destruct (handBody vWidth result i lms s) as [[[]|] s1]; simpl in *;
        [|discriminate].
      now rewrite Hq, Hp, applyPatch_then.
    + exists p. intros s. rewrite forHands_cons.
      pose proof (handBody_completion vWidth result i lms s) as Hc.
      specialize (Hp s). rewrite Hr in Hc.
      destruct (handBody vWidth result i lms s) as [[[]|] s1]; simpl in *;
        [discriminate|exact Hp].
Qed.

Lemma renderLoop_patch (f : Frame) :
  exists p : Patch, forall a : AppState,
    control (fst (renderLoop f a)) = applyPatch p (control a).
Proof.
  destruct (mounted f) eqn:Hm.
  - destruct (forHands_patch (vWidthOf f) (detection f)
                (detectedHands (detection f)) 0) as [p Hp].
    exists p. intros a. specialize (Hp (loopStart a)).
    rewrite (renderLoop_mounted f a Hm).
    destruct (detectedHands (detection f)) as [|lms rest]; [exact Hp|].
    destruct (forHands _ _ _ _ _) as [[[]|] s1]; exact Hp.
  - exists (mkPatch None None). intros a.
    now rewrite (renderLoop_unmounted f a Hm), applyPatch_none.
Qed.

(** X6: the writes of a frame are absolute, not increments.  Processing
    the same frame a second time changes nothing more; and from any two
    states, a frame either leaves the position of each as it was or sets
    both to the same position, and likewise for rotation and scale. *)
Theorem frame_writes_are_absolute (f : Frame) (a b : AppState) :
  let after (x : AppState) := control (fst (renderLoop f x)) in
  after (fst (renderLoop f a)) = after a /\
  ((position (after a) = position (control a) /\
    position (after b) = position (control b)) \/
   position (after a) = position (after b)) /\
  ((rotation (after a) = rotation (control a) /\
    scale (after a) = scale (control a) /\
    rotation (after b) = rotation (control b) /\
    scale (after b) = scale (control b)) \/
   (rotation (after a) = rotation (after b) /\
    scale (after a) = scale (after b))).
Proof.
  intros after; subst after; simpl.
  destruct (renderLoop_patch f) as [p Hp].
  rewrite !Hp. split; [apply applyPatch_idempotent|].
  unfold applyPatch; simpl.
  destruct (newPosition p), (newRotationScale p) as [[r k]|]; auto 6.
Qed.

(** X7: the last hand wins.  When the last hand of a frame is a right hand
    and every hand can be read, the rotation and the scale after the
    frame are those of this hand, whatever the hands before it wrote, and
    the status shown is the right hand's. *)
Theorem last_right_hand_wins (f : Frame) (a : AppState)
    (before : list (list HandLandmark.t)) (lms : list HandLandmark.t)
    (o : Observation) :
  mounted f = true ->
  detectedHands (detection f) = before ++ [lms] ->
  allReadable (detection f) 0 before = true ->
  readHand (detection f) (List.length before) lms = Some o ->
  hand o = "Right"%string ->
  let a' := fst (renderLoop f a) in
  rotation (control a') = XY.mk ((visualY o - 0.5) * 4) ((visualX o - 0.5) * 6) /\
  scale (control a') = newScale (pinchOf o) /\
  gestureStatus a' = "右手: 旋转/缩放"%string /\
  handDetected a' = true.
Proof.
  intros Hm Hd Hb Hread Hright a'; subst a'.
  rewrite (renderLoop_mounted f a Hm), Hd.
  pose proof (forHands_app (vWidthOf f) (detection f) before [lms] 0
                (loopStart a)) as Happ.
  pose proof (forHands_completion (vWidthOf f) (detection f) before 0
                (loopStart a)) as Hc.
  rewrite Hb in Hc.
  destruct (forHands (vWidthOf f) (detection f) 0 before (loopStart a))
    as [[[]|] s1]; [|discriminate].
  rewrite forHands_cons in Happ. simpl Nat.add in Happ.
  rewrite (handBody_right _ _ _ _ _ s1 Hread Hright) in Happ.
  simpl forHands in Happ. unfold ret in Happ.
  destruct before as [|b bs]; simpl app in *; cbv iota beta;
    rewrite Happ; simpl; auto.
Qed.

Lemma last_right_hand_wins_witness :
  let a' := fst (renderLoop
                   (twoHandFrame rightHandFrame leftPinchLandmarks "Right"
                      rightHandLandmarks "Right") app_init) in
  rotation (control a')
    = XY.mk ((visualY rightHandObservation - 0.5) * 4)
            ((visualX rightHandObservation - 0.5) * 6) /\
  scale (control a') = newScale (pinchOf rightHandObservation) /\
  gestureStatus a' = "右手: 旋转/缩放"%string /\
  handDetected a' = true.
Proof.
  apply (last_right_hand_wins
           (twoHandFrame rightHandFrame leftPinchLandmarks "Right"
              rightHandLandmarks "Right")
           app_init [leftPinchLandmarks] rightHandLandmarks
           rightHandObservation); reflexivity.
Defined.

Lemma readHand_some result i lms c cs palm thumb index :
  nth_error (handedness result) i = Some (c :: cs) ->
  nth_error lms 9 = Some palm ->
  nth_error lms 4 = Some thumb ->
  nth_error lms 8 = Some index ->
  readHand result i lms = Some (mkObservation (categoryName c) palm thumb index).
Proof.
  intros H1 H2 H3 H4. unfold readHand.
  rewrite H1; cbv iota beta. rewrite H2, H3, H4. reflexivity.
Qed.

(** X8: a left hand and a right hand of one frame do not interfere: the
    control state after the frame is the same whichever of the two the
    detector lists first.  Only the status shown differs: it is that of
    the hand listed last. *)
Theorem left_and_right_commute (f : Frame) (a : AppState)
    (lmsL lmsR : list HandLandmark.t) :
  mounted f = true ->
  (9 < List.length lmsL)%nat -> (9 < List.length lmsR)%nat ->
  let leftFirst := fst (renderLoop (twoHandFrame f lmsL "Left" lmsR "Right") a) in
  let rightFirst := fst (renderLoop (twoHandFrame f lmsR "Right" lmsL "Left") a) in
  control leftFirst = control rightFirst /\
  gestureStatus leftFirst = "右手: 旋转/缩放"%string /\
  gestureStatus rightFirst <> "右手: 旋转/缩放"%string.
Proof.
  intros Hm HL HR leftFirst rightFirst; subst leftFirst rightFirst.
  assert (Hnth : forall (l : list HandLandmark.t) (n : nat),
             (9 < List.length l)%nat -> (n <= 9)%nat ->
             exists p, nth_error l n = Some p).
  { intros l n Hl Hn. destruct (nth_error l n) eqn:E; [eauto|].
    apply nth_error_None in E. lia. }
  destruct (Hnth lmsL 9%nat HL) as [pl Epl]; [lia|].
  destruct (Hnth lmsL 4%nat HL) as [tl Etl]; [lia|].
  destruct (Hnth lmsL 8%nat HL) as [il Eil]; [lia|].
  destruct (Hnth lmsR 9%nat HR) as [pr Epr]; [lia|].
  destruct (Hnth lmsR 4%nat HR) as [tr Etr]; [lia|].
  destruct (Hnth lmsR 8%nat HR) as [ir Eir]; [lia|].
  set (fLR := twoHandFrame f lmsL "Left" lmsR "Right").
  set (fRL := twoHandFrame f lmsR "Right" lmsL "Left").
  assert (HmLR : mounted fLR = true) by exact Hm.
  assert (HmRL : mounted fRL = true) by exact Hm.
  assert (RL0 : readHand (detection fLR) 0 lmsL
                = Some (mkObservation "Left" pl tl il))
    by exact (readHand_some (detection fLR) 0 lmsL (mkCategory "Left") []
                pl tl il eq_refl Epl Etl Eil).
  assert (RR1 : readHand (detection fLR) 1 lmsR
                = Some (mkObservation "Right" pr tr ir))
    by exact (readHand_some (detection fLR) 1 lmsR (mkCategory "Right") []
                pr tr ir eq_refl Epr Etr Eir).
  assert (RR0 : readHand (detection fRL) 0 lmsR
                = Some (mkObservation "Right" pr tr ir))
    by exact (readHand_some (detection fRL) 0 lmsR (mkCategory "Right") []
                pr tr ir eq_refl Epr Etr Eir).
  assert (RL1 : readHand (detection fRL) 1 lmsL
                = Some (mkObservation "Left" pl tl il))
    by exact (readHand_some (detection fRL) 1 lmsL (mkCategory "Left") []
                pl tl il eq_refl Epl Etl Eil).
  rewrite (renderLoop_mounted fLR a HmLR), (renderLoop_mounted fRL a HmRL).
  change (detectedHands (detection fLR)) with [lmsL; lmsR].
  change (detectedHands (detection fRL)) with [lmsR; lmsL].
  cbv iota beta. rewrite !forHands_cons.
  rewrite (handBody_right _ _ _ _ _ (loopStart a) RR0 eq_refl).
  destruct (Rlt_dec (pinchOf (mkObservation "Left" pl tl il)) 0.05) as [Hp|Hp].
  - rewrite (handBody_left_pinch _ _ _ _ _ (loopStart a) RL0 eq_refl Hp).
    rewrite !forHands_cons.
    rewrite (handBody_right _ _ _ _ _ _ RR1 eq_refl).
    rewrite (handBody_left_pinch _ _ _ _ _ _ RL1 eq_refl Hp).
    simpl. repeat split; discriminate.
  - rewrite (handBody_left_idle _ _ _ _ _ (loopStart a) RL0 eq_refl Hp).
    rewrite !forHands_cons.
    rewrite (handBody_right _ _ _ _ _ _ RR1 eq_refl).
    rewrite (handBody_left_idle _ _ _ _ _ _ RL1 eq_refl Hp).
    simpl. repeat split; discriminate.
Qed.

Lemma left_and_right_commute_witness :
  control (fst (renderLoop (twoHandFrame rightHandFrame leftPinchLandmarks "Left"
                              rightHandLandmarks "Right") app_init))
  = control (fst (renderLoop (twoHandFrame rightHandFrame rightHandLandmarks "Right"
                                leftPinchLandmarks "Left") app_init)).
Proof.
  apply (left_and_right_commute rightHandFrame app_init leftPinchLandmarks
           rightHandLandmarks); [reflexivity | simpl; lia | simpl; lia].
Defined.

(** X9: no frame ever writes the [activeRegion] field of the control
    state: after any run of frames it still holds its initial value. *)
Theorem activeRegion_never_written (frames : list Frame) (a : AppState) :
  activeRegion (control (runFrames frames a)) = activeRegion (control a).
Proof.
  revert a; induction frames as [|f rest IH]; intros a; [reflexivity|].
  assert (Hf : activeRegion (control (fst (renderLoop f a)))
               = activeRegion (control a)).
  { destruct (renderLoop_patch f) as [p Hp]. now rewrite Hp. }
  simpl. destruct (renderLoop f a) as [a' []]; simpl in Hf;
    [rewrite IH|..]; exact Hf.
Qed.

(** ** Geometry of the mappings *)

Lemma sum_squares_zero (u v : R) : u ^ 2 + v ^ 2 = 0 -> u = 0 /\ v = 0.
Proof. intros H. split; nra. Qed.

(** X10: the pinch distance is symmetric in the two finger tips, does not
    change when the whole hand moves in the image, and is zero exactly
    when the two tips have the same [x] and [y]. *)
Theorem pinchDistance_geometry (thumb index : HandLandmark.t) (dx dy : R) :
  pinchDistance thumb index = pinchDistance index thumb /\
  pinchDistance (shiftXY dx dy thumb) (shiftXY dx dy index)
    = pinchDistance thumb index /\
  (pinchDistance thumb index = 0 <-> sameXY thumb index).
Proof.
  unfold pinchDistance, shiftXY, sameXY.
  cbn [HandLandmark.x HandLandmark.y HandLandmark.z].
  set (u := HandLandmark.x thumb - HandLandmark.x index).
  set (v := HandLandmark.y thumb - HandLandmark.y index).
  assert (Hnn : 0 <= u ^ 2 + v ^ 2) by (simpl; nra).
  split; [|split; [|split]].
  - f_equal. subst u v. ring.
  - f_equal. subst u v. ring.
  - intros H. apply (sqrt_eq_0 _ Hnn) in H.
    apply sum_squares_zero in H. subst u v. lra.
  - intros [Hx Hy].
    replace (u ^ 2 + v ^ 2) with 0 by (subst u v; rewrite Hx, Hy; ring).
    apply sqrt_0.
Qed.

(** X11: the scale is linear in the pinch distance up to 0.3 and stays at
    3.5 from there on; it is 0.5 only when the two finger tips coincide in
    the image, and a hand that is pinching (distance below 0.05) gets a
    scale below 1. *)
Theorem scale_saturation (thumb index : HandLandmark.t) :
  let d := pinchDistance thumb index in
  (d <= 0.3 -> newScale d = 0.5 + d * 10) /\
  (0.3 <= d -> newScale d = 3.5) /\
  (newScale d = 0.5 <-> sameXY thumb index) /\
  (d < 0.05 -> newScale d < 1).
Proof.
  intros d. pose proof (pinchDistance_nonneg thumb index) as Hd. fold d in Hd.
  assert (Hz : d = 0 <-> sameXY thumb index)
    by apply (pinchDistance_geometry thumb index 0 0).
  unfold newScale. split; [|split; [|split; [split|]]].
  - intros H. apply Rmax_case_strong; apply Rmin_case_strong; intros; lra.
  - intros H. apply Rmax_case_strong; apply Rmin_case_strong; intros; lra.
  - intros H. apply Hz. revert H.
    apply Rmax_case_strong; apply Rmin_case_strong; intros; lra.
  - intros H. apply Hz in H. rewrite H.
    apply Rmax_case_strong; apply Rmin_case_strong; intros; lra.
  - intros H. apply Rmax_case_strong; apply Rmin_case_strong; intros; lra.
Qed.

Lemma leftPinch_pinch : pinchOf leftPinchObservation = 0.
Proof.
  apply (pinchDistance_geometry (HandLandmark.mk 0.5 0.5 0)
           (HandLandmark.mk 0.5 0.5 0) 0 0).
  split; reflexivity.
Qed.

(** X12: a pinching left hand whose palm centre lies in the image drags
    the globe to a position inside the visible rectangle: [x] within half
    the viewport width, [y] within half its height (2.07); the centre of
    the image maps to the origin. *)
Theorem drag_stays_in_viewport
    (vWidth : R) (result : HandLandmarkerResult) (i : nat)
    (lms : list HandLandmark.t) (o : Observation) (s : Store) :
  readHand result i lms = Some o ->
  hand o = "Left"%string ->
  pinchOf o < 0.05 ->
  0 <= HandLandmark.x (palmCenter o) <= 1 ->
  0 <= HandLandmark.y (palmCenter o) <= 1 ->
  0 <= vWidth ->
  let p := position (earthControl (snd (handBody vWidth result i lms s))) in
  - (vWidth / 2) <= XY.x p <= vWidth / 2 /\
  - 2.07 <= XY.y p <= 2.07 /\
  (HandLandmark.x (palmCenter o) = 0.5 -> XY.x p = 0) /\
  (HandLandmark.y (palmCenter o) = 0.5 -> XY.y p = 0).
Proof.
  intros Hread Hleft Hp Hx Hy Hw p; subst p.
  rewrite (handBody_left_pinch vWidth result i lms o s Hread Hleft Hp); simpl.
  unfold visualX, visualY, vHeight.
  split; [split; nra|]. split; [split; nra|].
  split; intros E; rewrite E; lra.
Qed.

Lemma drag_stays_in_viewport_witness :
  let p := position (earthControl
             (snd (handBody 7.36 leftPinchResult 0 leftPinchLandmarks
                     (mkStore earthControl_init "")))) in
  - (7.36 / 2) <= XY.x p <= 7.36 / 2 /\
  - 2.07 <= XY.y p <= 2.07 /\
  (HandLandmark.x (palmCenter leftPinchObservation) = 0.5 -> XY.x p = 0) /\
  (HandLandmark.y (palmCenter leftPinchObservation) = 0.5 -> XY.y p = 0).
Proof.
  apply (drag_stays_in_viewport 7.36 leftPinchResult 0 leftPinchLandmarks
           leftPinchObservation (mkStore earthControl_init "")
           eq_refl eq_refl);
    [rewrite leftPinch_pinch; lra | simpl; lra | simpl; lra | lra].
Defined.

(** ** Runs of the render tick *)

Lemma useFrame_guard c elapsedTime delta r :
  groupRef r = None \/ earthRef r = None \/ cloudsRef r = None \/ ringsRef r = None ->
  useFrame c elapsedTime delta r = (r, None).
Proof.
  unfold useFrame.
  destruct (earthRef r), (cloudsRef r), (ringsRef r), (groupRef r);
    intros [H|[H|[H|H]]]; try discriminate; reflexivity.
Qed.

(** X13: while one of the four refs is still null, the tick does nothing:
    whatever the control state and the clock hold, the refs stay as they
    are over any number of ticks, and no region is reported. *)
Theorem tick_waits_for_refs (ticks : list Tick) (r : SceneRefs) :
  groupRef r = None \/ earthRef r = None \/ cloudsRef r = None \/ ringsRef r = None ->
  runTicks ticks r = r /\
  forall (c : EarthControlState) (elapsedTime delta : R),
    snd (useFrame c elapsedTime delta r) = None.
Proof.
  intros H. split.
  - induction ticks as [|t rest IH]; [reflexivity|].
    simpl. now rewrite (useFrame_guard _ _ _ r H).
  - intros c e d. now rewrite (useFrame_guard c e d r H).
Qed.

Lemma tick_waits_for_refs_witness :
  runTicks [mkTick doubledControl 0 0; mkTick doubledControl 1 1] sceneWithoutRings
  = sceneWithoutRings.
Proof.
  apply (tick_waits_for_refs [mkTick doubledControl 0 0; mkTick doubledControl 1 1]
           sceneWithoutRings).
  right; right; right; reflexivity.
Defined.

Lemma runTicks_cons t rest group earth clouds rings :
  runTicks (t :: rest) (mountedScene group earth clouds rings) =
  let q := smoothStep (tickControl t) (tickElapsed t) group earth clouds rings in
  runTicks rest
    (mountedScene (fst (fst (fst q))) (snd (fst (fst q))) (snd (fst q)) (snd q)).
Proof. reflexivity. Qed.

(** Two interpolations towards the same target make one. *)
Lemma Vector3_lerp_twice (v t : Vector3.t) (a b : R) :
  Vector3.lerp (Vector3.lerp v t a) t b = Vector3.lerp v t (1 - (1 - a) * (1 - b)).
Proof. destruct v, t; unfold Vector3.lerp; simpl; f_equal; ring. Qed.

Lemma MathUtils_lerp_twice (x t a b : R) :
  MathUtils.lerp (MathUtils.lerp x t a) t b = MathUtils.lerp x t (1 - (1 - a) * (1 - b)).
Proof. unfold MathUtils.lerp; ring. Qed.

Lemma Vector3_lerp_alpha (v t : Vector3.t) (a b : R) :
  a = b -> Vector3.lerp v t a = Vector3.lerp v t b.
Proof. now intros ->. Qed.

Section ConstantTarget.
Variable c : EarthControlState.

Lemma runTicks_earthScale (ticks : list Tick) :
  Forall (fun t => tickControl t = c) ticks ->
  forall group earth clouds rings,
    earthScaleOf (runTicks ticks (mountedScene group earth clouds rings))
    = Some (Vector3.lerp (Object3D.scale earth) (targetScale c)
              (1 - 0.9 ^ List.length ticks)).
Proof.
  induction 1 as [|t rest Ht _ IH]; intros group earth clouds rings.
  - simpl. unfold earthScaleOf; simpl. f_equal.
    rewrite <- (Vector3_lerp_zero (Object3D.scale earth) (targetScale c)) at 1.
    apply Vector3_lerp_alpha; lra.
  - rewrite runTicks_cons, Ht. cbv zeta. rewrite IH. f_equal.
    unfold smoothStep; cbn [fst snd Object3D.scale]. fold (targetScale c).
    rewrite Vector3_lerp_twice. apply Vector3_lerp_alpha.
    cbn [List.length pow]. lra.
Qed.

Lemma runTicks_groupPosition (ticks : list Tick) :
  Forall (fun t => tickControl t = c) ticks ->
  forall group earth clouds rings,
    groupPositionOf (runTicks ticks (mountedScene group earth clouds rings))
    = Some (Vector3.lerp (Object3D.position group) (targetPosition c)
              (1 - 0.8 ^ List.length ticks)).
Proof.
  induction 1 as [|t rest Ht _ IH]; intros group earth clouds rings.
  - simpl. unfold groupPositionOf; simpl. f_equal.
    rewrite <- (Vector3_lerp_zero (Object3D.position group) (targetPosition c)) at 1.
    apply Vector3_lerp_alpha; lra.
  - rewrite runTicks_cons, Ht. cbv zeta. rewrite IH. f_equal.
    unfold smoothStep; cbn [fst snd Object3D.position]. fold (targetPosition c).
    rewrite Vector3_lerp_twice. apply Vector3_lerp_alpha.
    cbn [List.length pow]. lra.
Qed.

Lemma runTicks_earthRotation (ticks : list Tick) :
  Forall (fun t => tickControl t = c) ticks ->
  forall group earth clouds rings,
    earthRotationOf (runTicks ticks (mountedScene group earth clouds rings))
    = Some (Euler.mk
              (MathUtils.lerp (Euler.x (Object3D.rotation earth))
                 (XY.x (rotation c)) (1 - 0.9 ^ List.length ticks))
              (MathUtils.lerp (Euler.y (Object3D.rotation earth))
                 (XY.y (rotation c)) (1 - 0.9 ^ List.length ticks))
              (Euler.z (Object3D.rotation earth))).
Proof.
  induction 1 as [|t rest Ht _ IH]; intros group earth clouds rings.
  - simpl. unfold earthRotationOf, MathUtils.lerp; simpl.
    destruct (Object3D.rotation earth); simpl. do 2 f_equal; lra.
  - rewrite runTicks_cons, Ht. cbv zeta. rewrite IH. f_equal.
    unfold smoothStep; cbn [fst snd Object3D.rotation Euler.x Euler.y Euler.z].
    rewrite !MathUtils_lerp_twice.
    cbn [List.length pow]. unfold MathUtils.lerp. f_equal; lra.
Qed.
End ConstantTarget.

(** X14: while the control state stays the same, [n] ticks act as one
    interpolation: the earth's scale and rotation are where a single step
    of weight [1 - 0.9 ^ n] would put them, the group's position where a
    single step of weight [1 - 0.8 ^ n] would, whatever the clock says. *)
Theorem ticks_compose (c : EarthControlState) (ticks : list Tick)
    (group earth clouds rings : Object3D.t) :
  Forall (fun t => tickControl t = c) ticks ->
  let n := List.length ticks in
  let r := runTicks ticks (mountedScene group earth clouds rings) in
  earthScaleOf r
    = Some (Vector3.lerp (Object3D.scale earth) (targetScale c) (1 - 0.9 ^ n)) /\
  groupPositionOf r
    = Some (Vector3.lerp (Object3D.position group) (targetPosition c) (1 - 0.8 ^ n)) /\
  earthRotationOf r
    = Some (Euler.mk
              (MathUtils.lerp (Euler.x (Object3D.rotation earth))
                 (XY.x (rotation c)) (1 - 0.9 ^ n))
              (MathUtils.lerp (Euler.y (Object3D.rotation earth))
                 (XY.y (rotation c)) (1 - 0.9 ^ n))
              (Euler.z (Object3D.rotation earth))).
Proof.
  intros H n r; subst n r. split; [|split].
  - now apply runTicks_earthScale.
  - now apply runTicks_groupPosition.
  - now apply runTicks_earthRotation.
Qed.

Lemma ticks_compose_witness :
  earthScaleOf
    (runTicks [mkTick doubledControl 0 0; mkTick doubledControl 0.016 0.016]
       (mountedScene unitObject unitObject unitObject unitObject))
  = Some (Vector3.lerp (Object3D.scale unitObject) (targetScale doubledControl)
            (1 - 0.9 ^ 2)).
Proof.
  apply (ticks_compose doubledControl
           [mkTick doubledControl 0 0; mkTick doubledControl 0.016 0.016]
           unitObject unitObject unitObject unitObject).
  repeat apply Forall_cons; try apply Forall_nil; reflexivity.
Defined.

(** ** Convergence and range of the smoothed values *)

Lemma pow_fraction_le_1 (q : R) (n : nat) : 0 <= q <= 1 -> 0 <= q ^ n <= 1.
Proof.
  intros Hq; induction n as [|n IH]; simpl; [lra|nra].
Qed.

Lemma pow_09_50 : 0.9 ^ 50 < 0.01.
Proof.
  assert (H10 : 0.9 ^ 10 < 0.35) by (simpl; lra).
  assert (P10 : 0 <= 0.9 ^ 10) by (apply pow_fraction_le_1; lra).
  replace (0.9 ^ 50) with ((0.9 ^ 10) ^ 5) by (rewrite <- pow_mult; reflexivity).
  set (u := 0.9 ^ 10) in *.
  assert (H2 : u ^ 2 <= 0.35 ^ 2) by (simpl; nra).
  assert (P2 : 0 <= u ^ 2) by (simpl; nra).
  replace (u ^ 5) with (u ^ 2 * u ^ 2 * u) by ring.
  set (w := u ^ 2) in *.
  assert (w * w <= 0.35 ^ 2 * 0.35 ^ 2) by nra.
  assert (0 <= w * w) by nra.
  assert (w * w * u <= 0.35 ^ 2 * 0.35 ^ 2 * 0.35) by nra.
  simpl in *; lra.
Qed.

Lemma pow_09_late (n : nat) : (50 <= n)%nat -> 0 <= 0.9 ^ n < 0.01.
Proof.
  intros Hn. replace n with (50 + (n - 50))%nat by lia.
  rewrite pow_add.
  pose proof (pow_fraction_le_1 0.9 (n - 50)) as Hm.
  pose proof (pow_fraction_le_1 0.9 50) as H50.
  pose proof pow_09_50. split; nra.
Qed.

(** X15: fifty ticks or more with the control state unchanged bring every
    component of the earth's scale, and its rotation about [x] and [y], to
    within one percent of their distance to the target at the start. *)
Theorem smoothing_converges (c : EarthControlState) (ticks : list Tick)
    (group earth clouds rings : Object3D.t) :
  Forall (fun t => tickControl t = c) ticks ->
  (50 <= List.length ticks)%nat ->
  exists (s : Vector3.t) (e : Euler.t),
    earthScaleOf (runTicks ticks (mountedScene group earth clouds rings)) = Some s /\
    earthRotationOf (runTicks ticks (mountedScene group earth clouds rings)) = Some e /\
    Rabs (Vector3.x s - scale c)
      <= 0.01 * Rabs (Vector3.x (Object3D.scale earth) - scale c) /\
    Rabs (Vector3.y s - scale c)
      <= 0.01 * Rabs (Vector3.y (Object3D.scale earth) - scale c) /\
    Rabs (Vector3.z s - scale c)
      <= 0.01 * Rabs (Vector3.z (Object3D.scale earth) - scale c) /\
    Rabs (Euler.x e - XY.x (rotation c))
      <= 0.01 * Rabs (Euler.x (Object3D.rotation earth) - XY.x (rotation c)) /\
    Rabs (Euler.y e - XY.y (rotation c))
      <= 0.01 * Rabs (Euler.y (Object3D.rotation earth) - XY.y (rotation c)).
Proof.
  intros Hc Hn.
  pose proof (pow_09_late _ Hn) as Hq.
  set (q := 0.9 ^ List.length ticks) in *.
  assert (Hclose : forall v t : R,
             Rabs (v + (t - v) * (1 - q) - t) <= 0.01 * Rabs (v - t)).
  { intros v t. replace (v + (t - v) * (1 - q) - t) with ((v - t) * q) by ring.
    rewrite Rabs_mult, (Rabs_right q) by lra.
    pose proof (Rabs_pos (v - t)). nra. }
  assert (Hclose' : forall v t : R,
             Rabs ((1 - (1 - q)) * v + (1 - q) * t - t) <= 0.01 * Rabs (v - t)).
  { intros v t.
    replace ((1 - (1 - q)) * v + (1 - q) * t - t) with (v + (t - v) * (1 - q) - t)
      by ring.
    apply Hclose. }
  eexists; eexists.
  split; [exact (runTicks_earthScale c ticks Hc group earth clouds rings)|].
  split; [exact (runTicks_earthRotation c ticks Hc group earth clouds rings)|].
  fold q. unfold Vector3.lerp, MathUtils.lerp, targetScale; simpl.
  repeat split; (apply Hclose || apply Hclose').
Qed.

Lemma smoothing_converges_witness :
  exists (s : Vector3.t) (e : Euler.t),
    earthScaleOf (runTicks (repeat (mkTick doubledControl 0 0) 50)
                    (mountedScene unitObject unitObject unitObject unitObject))
      = Some s /\
    earthRotationOf (runTicks (repeat (mkTick doubledControl 0 0) 50)
                       (mountedScene unitObject unitObject unitObject unitObject))
      = Some e /\
    Rabs (Vector3.x s - 2) <= 0.01 * Rabs (1 - 2).
Proof.
  destruct (smoothing_converges doubledControl
              (repeat (mkTick doubledControl 0 0) 50)
              unitObject unitObject unitObject unitObject)
    as (s & e & Hs & He & Hx & _).
  - apply Forall_forall. intros t Ht. apply repeat_spec in Ht. now subst t.
  - rewrite repeat_length. apply Nat.le_refl.
  - exists s, e. split; [exact Hs|]. split; [exact He|]. exact Hx.
Defined.

Lemma lerp_between (lo hi v t alpha : R) :
  0 <= alpha <= 1 -> lo <= v <= hi -> lo <= t <= hi ->
  lo <= v + (t - v) * alpha <= hi.
Proof. intros Ha Hv Ht. split; nra. Qed.

Lemma Vector3_lerp_within (lo hi : R) (v t : Vector3.t) (alpha : R) :
  0 <= alpha <= 1 -> vectorWithin lo hi v -> vectorWithin lo hi t ->
  vectorWithin lo hi (Vector3.lerp v t alpha).
Proof.
  intros Ha (Hx & Hy & Hz) (Tx & Ty & Tz). unfold vectorWithin, Vector3.lerp; simpl.
  split; [|split]; apply lerp_between; assumption.
Qed.

(** X16: the interpolation never overshoots the range of the scale: if
    the earth's scale starts within [[0.5, 3.5]] and every control state
    the ticks read has its scale in that range, the earth's scale stays
    within [[0.5, 3.5]] after any number of ticks. *)
Theorem smoothed_scale_stays_in_range (ticks : list Tick)
    (group earth clouds rings : Object3D.t) :
  Forall (fun t => scaleInRange (tickControl t)) ticks ->
  vectorWithin 0.5 3.5 (Object3D.scale earth) ->
  exists s : Vector3.t,
    earthScaleOf (runTicks ticks (mountedScene group earth clouds rings)) = Some s /\
    vectorWithin 0.5 3.5 s.
Proof.
  intros H; revert group earth clouds rings.
  induction H as [|t rest Ht _ IH]; intros group earth clouds rings He.
  - exists (Object3D.scale earth). now split.
  - rewrite runTicks_cons. cbv zeta. apply IH.
    unfold smoothStep; cbn [fst snd Object3D.scale].
    apply Vector3_lerp_within; [lra|exact He|].
    unfold vectorWithin; simpl. unfold scaleInRange in Ht. lra.
Qed.

Lemma smoothed_scale_stays_in_range_witness :
  exists s : Vector3.t,
    earthScaleOf
      (runTicks [mkTick doubledControl 0 0; mkTick earthControl_init 1 1]
         (mountedScene unitObject unitObject unitObject unitObject)) = Some s /\
    vectorWithin 0.5 3.5 s.
Proof.
  apply (smoothed_scale_stays_in_range
           [mkTick doubledControl 0 0; mkTick earthControl_init 1 1]
           unitObject unitObject unitObject unitObject).
  - repeat apply Forall_cons; try apply Forall_nil;
      unfold scaleInRange; simpl; lra.
  - unfold vectorWithin; simpl; lra.
Defined.

(** X17: the rings spin by the tick, not by the clock: after [n] ticks
    their rotation about [y] has grown by [0.005 * n] whatever the elapsed
    times were, their rotation about [x] is untouched, and once a tick
    has run their rotation about [z] lies within [[-0.1, 0.1]]. *)
Theorem rings_spin_per_tick (ticks : list Tick)
    (group earth clouds rings : Object3D.t) :
  exists z : R,
    ringsRotationOf (runTicks ticks (mountedScene group earth clouds rings))
    = Some (Euler.mk (Euler.x (Object3D.rotation rings))
              (Euler.y (Object3D.rotation rings) + 0.005 * INR (List.length ticks))
              z) /\
    (ticks = [] -> z = Euler.z (Object3D.rotation rings)) /\
    (ticks <> [] -> -0.1 <= z <= 0.1).
Proof.
  revert group earth clouds rings.
  induction ticks as [|t rest IH]; intros group earth clouds rings.
  - exists (Euler.z (Object3D.rotation rings)). split; [|split].
    + unfold ringsRotationOf; simpl. destruct (Object3D.rotation rings); simpl.
      do 2 f_equal. lra.
    + reflexivity.
    + intros H; now contradiction H.
  - rewrite runTicks_cons. cbv zeta.
    match goal with
    | |- context [runTicks rest (mountedScene ?g ?e ?c ?r)] =>
        destruct (IH g e c r) as (z & Hz & Hnil & Hcons)
    end.
    exists z. split; [|split].
    + rewrite Hz. unfold smoothStep;
        cbn [fst snd Object3D.rotation Euler.x Euler.y Euler.z].
      do 2 f_equal. change (List.length (t :: rest)) with (S (List.length rest)).
      rewrite S_INR. ring.
    + discriminate.
    + intros _. destruct rest as [|t' rest'].
      * rewrite (Hnil eq_refl). unfold smoothStep;
          cbn [fst snd Object3D.rotation Euler.z].
        pose proof (SIN_bound (tickElapsed t * 0.2)). lra.
      * apply Hcons. discriminate.
Qed.

(** ** The frame-rate estimate *)

Lemma jsRound_bounds (r lo hi : R) (zlo zhi : Z) :
  IZR zlo - 0.5 <= r -> r < IZR zhi + 0.5 ->
  exists k : Z, jsRound r = IZR k /\ (zlo <= k <= zhi)%Z.
Proof.
  intros Hlo Hhi. unfold jsRound. exists (Int_part (r + 0.5)).
  split; [reflexivity|].
  destruct (base_Int_part (r + 0.5)) as [H1 H2].
  split.
  - assert (H : (zlo - 1 < Int_part (r + 0.5))%Z)
      by (apply lt_IZR; rewrite minus_IZR; lra).
    lia.
  - assert (H : (Int_part (r + 0.5) < zhi + 1)%Z)
      by (apply lt_IZR; rewrite plus_IZR; lra).
    lia.
Qed.

Lemma fpsStep_invariant (time : R) (st : FpsState) :
  0 <= lastTime st ->
  (exists k : Z, fps st = IZR k /\ (0 <= k <= 1000)%Z) ->
  0 <= lastTime (fpsStep time st) /\
  (exists k : Z, fps (fpsStep time st) = IZR k /\ (0 <= k <= 1000)%Z).
Proof.
  intros Hl Hf. unfold fpsStep.
  destruct (Rgeb (time - lastTime st) 1000) eqn:Hd; [|now split].
  apply Rgeb_true in Hd. simpl. split; [lra|].
  assert (Ht : 0 <= time) by lra.
  destruct (jsRem_range time 1000 ltac:(lra)) as [Hrem _].
  specialize (Hrem Ht).
  set (r := orOne (jsRem time 1000)).
  assert (Hr : 0 < r < 1000).
  { unfold r, orOne. destruct (Req_dec_T (jsRem time 1000) 0); lra. }
  set (delta := time - lastTime st) in *.
  assert (Hx : 0 < 1000 / (delta / r) < 1000).
  { replace (1000 / (delta / r)) with (1000 * r / delta) by (field; lra).
    split.
    - apply Rdiv_lt_0_compat; nra.
    - apply (Rmult_lt_reg_r delta); [lra|].
      replace (1000 * r / delta * delta) with (1000 * r) by (field; lra).
      nra. }
  apply (jsRound_bounds _ 0 1000 0%Z 1000%Z); lra.
Qed.

(** X18: the frame-rate estimate is refreshed only by a call that comes at
    least 1000 ms after the last refresh, and whatever the times of the
    calls are, the value shown is a whole number between 0 and 1000. *)
Theorem fps_estimate_bounded (times : list R) (time : R) :
  let st := runFps times fps_init in
  (time - lastTime st < 1000 -> fpsStep time st = st) /\
  (1000 <= time - lastTime st -> lastTime (fpsStep time st) = time) /\
  0 <= lastTime st /\
  exists k : Z, fps st = IZR k /\ (0 <= k <= 1000)%Z.
Proof.
  intros st.
  assert (Hinv : 0 <= lastTime st /\
                 exists k : Z, fps st = IZR k /\ (0 <= k <= 1000)%Z).
  { subst st. unfold runFps.
    assert (H0 : 0 <= lastTime fps_init /\
                 exists k : Z, fps fps_init = IZR k /\ (0 <= k <= 1000)%Z).
    { split; [simpl; lra|]. exists 0%Z. split; [reflexivity|lia]. }
    revert H0. generalize fps_init.
    induction times as [|t rest IH]; intros s0 H0; [exact H0|].
    simpl. apply IH. destruct H0 as [Hl Hf]. now apply fpsStep_invariant. }
  split; [|split; [|exact Hinv]].
  - intros H. unfold fpsStep.
    destruct (Rgeb (time - lastTime st) 1000) eqn:Hd; [|reflexivity].
    apply Rgeb_true in Hd. lra.
  - intros H. unfold fpsStep.
    destruct (Rgeb (time - lastTime st) 1000) eqn:Hd; [reflexivity|].
    apply Rgeb_false in Hd. lra.
Qed.

(** ** The hex stream *)

Lemma firstn_app_firstn {A : Type} (n m : nat) (l r : list A) :
  (n <= List.length l + m)%nat ->
  firstn n (l ++ firstn m r) = firstn n (l ++ r).
Proof.
  revert n; induction l as [|x l IH]; intros n Hn; simpl in *.
  - rewrite firstn_firstn. now rewrite Nat.min_l by lia.
  - destruct n as [|n]; [reflexivity|]. simpl. f_equal. apply IH. lia.
Qed.

Lemma runHex_window (codes : list string) : forall hex : list string,
  (List.length hex <= 9)%nat ->
  runHex codes hex = firstn 9 (rev codes ++ hex).
Proof.
  induction codes as [|c rest IH]; intros hex Hlen.
  - change (runHex [] hex) with hex. change (rev [] ++ hex) with hex.
    symmetry. apply firstn_all2. exact Hlen.
  - unfold runHex in *. simpl fold_left. rewrite IH.
    + unfold hexUpdate. simpl rev. rewrite <- app_assoc.
      change (rev rest ++ c :: firstn 8 hex)
        with (rev rest ++ [c] ++ firstn 8 hex).
      rewrite !app_assoc. apply firstn_app_firstn.
      rewrite length_app. simpl. lia.
    + unfold hexUpdate. pose proof (firstn_le_length 8 hex).
      change (List.length (c :: firstn 8 hex))
        with (S (List.length (firstn 8 hex))). lia.
Qed.

(** X19: the hex stream is a window on the last nine codes, newest first:
    after any number of updates from the empty list it holds the nine
    most recent codes in reverse order of arrival, and never more than
    nine entries. *)
Theorem hex_stream_window (codes : list string) :
  runHex codes [] = firstn 9 (rev codes) /\
  (List.length (runHex codes []) <= 9)%nat.
Proof.
  assert (E : runHex codes [] = firstn 9 (rev codes)).
  { rewrite (runHex_window codes []) by (simpl; lia). now rewrite app_nil_r. }
  split; [exact E|]. rewrite E. apply firstn_le_length.
Qed.

(** ** The status shown and the hand panels *)

(** The status strings a hand can leave in [statusString]. *)
Lemma handBody_status vWidth result i lms s :
  statusString (snd (handBody vWidth result i lms s)) = statusString s \/
  In (statusString (snd (handBody vWidth result i lms s)))
     ["左手: 拖拽中"; "左手: 待命 (捏合以拖拽)"; "右手: 旋转/缩放"]%string.
Proof.
  destruct (readHand result i lms) as [o|] eqn:Hread.
  - destruct (string_dec (hand o) "Left") as [Hl|Hl].
    + destruct (Rlt_dec (pinchOf o) 0.05) as [Hp|Hp].
      * rewrite (handBody_left_pinch _ _ _ _ _ s Hread Hl Hp).
        right; simpl; auto.
      * rewrite (handBody_left_idle _ _ _ _ _ s Hread Hl Hp).
        right; simpl; auto.
    + destruct (string_dec (hand o) "Right") as [Hr|Hr].
      * rewrite (handBody_right _ _ _ _ _ s Hread Hr).
        right; simpl; auto.
      * rewrite (handBody_other _ _ _ _ _ s Hread Hl Hr). now left.
  - rewrite (handBody_unreadable _ _ _ _ s Hread). now left.
Qed.

Lemma forHands_status vWidth result hands : forall i s,
  statusString (snd (forHands vWidth result i hands s)) = statusString s \/
  In (statusString (snd (forHands vWidth result i hands s)))
     ["左手: 拖拽中"; "左手: 待命 (捏合以拖拽)"; "右手: 旋转/缩放"]%string.
Proof.
  induction hands as [|lms rest IH]; intros i s; [now left|].
  rewrite forHands_cons.
  pose proof (handBody_status vWidth result i lms s) as Hh.
  destruct (handBody vWidth result i lms s) as [[[]|] s1]; simpl in Hh.
  - destruct (IH (S i) s1) as [E|E]; [|now right].
    rewrite E. exact Hh.
  - exact Hh.
Qed.

Lemma renderLoop_status (f : Frame) (a : AppState) :
  In (gestureStatus a) shownStatuses ->
  In (gestureStatus (fst (renderLoop f a))) shownStatuses.
Proof.
  intros Ha. destruct (mounted f) eqn:Hm.
  - rewrite (renderLoop_mounted f a Hm).
    pose proof (forHands_status (vWidthOf f) (detection f)
                  (detectedHands (detection f)) 0 (loopStart a)) as Hs.
    destruct (detectedHands (detection f)) as [|lms rest];
      [simpl; auto|].
    destruct (forHands _ _ _ _ _) as [[[]|] s1]; [|exact Ha].
    cbn [fst snd gestureStatus] in *.
    destruct Hs as [E|E].
    + rewrite E. simpl; auto.
    + unfold shownStatuses. simpl in E |- *. tauto.
  - now rewrite (renderLoop_unmounted f a Hm).
Qed.

Lemma runFrames_status (frames : list Frame) : forall a : AppState,
  In (gestureStatus a) shownStatuses ->
  In (gestureStatus (runFrames frames a)) shownStatuses.
Proof.
  induction frames as [|f rest IH]; intros a Ha; [exact Ha|].
  pose proof (renderLoop_status f a Ha) as Hf.
  cbn [runFrames].
  destruct (renderLoop f a) as [a' []]; cbn [fst] in Hf;
    [apply IH|..]; exact Hf.
Qed.

(** X20: over a whole session the gesture status shown is always one of
    six strings: the initial one, the one for no hands, one of the three
    a hand sets, or the empty string, which a frame shows when its hands
    carry neither the label "Left" nor "Right". *)
Theorem status_is_one_of_six (frames : list Frame) :
  In (gestureStatus (runFrames frames app_init)) shownStatuses /\
  gestureStatus (fst (renderLoop unlabelledHandFrame app_init)) = ""%string.
Proof.
  split.
  - apply runFrames_status. simpl; auto.
  - rewrite (renderLoop_mounted unlabelledHandFrame app_init eq_refl).
    change (detectedHands (detection unlabelledHandFrame))
      with [rightHandLandmarks].
    cbv iota beta. rewrite forHands_cons.
    rewrite (handBody_other (vWidthOf unlabelledHandFrame)
               (detection unlabelledHandFrame) 0 rightHandLandmarks
               (mkObservation "Unknown" (HandLandmark.mk 1 0.5 0)
                  (HandLandmark.mk 0.5 0.5 0) (HandLandmark.mk 0.25 0.5 0))
               (loopStart app_init) eq_refl);
      [reflexivity|discriminate|discriminate].
Qed.

Lemma panels_of_shown (g : string) :
  In g shownStatuses -> In (leftPanel g, rightPanel g) shownPanels.
Proof.
  unfold shownStatuses. intros H.
  repeat (destruct H as [<-|H]; [vm_compute; tauto|]).
  contradiction.
Qed.

(** X21: the two hand panels never show two active hands.  Over a whole
    session they show one of four pairs of texts: both on standby, or the
    left hand's text beside a right hand on standby, or the right hand's
    text beside a left hand on standby; the text of an active hand is the
    part of the status after the colon, with its leading space. *)
Theorem panels_show_one_hand (frames : list Frame) :
  let g := gestureStatus (runFrames frames app_init) in
  In (leftPanel g, rightPanel g) shownPanels /\
  (leftPanel g = Some "待命"%string \/ rightPanel g = Some "待命"%string).
Proof.
  intros g.
  assert (H : In (leftPanel g, rightPanel g) shownPanels).
  { apply panels_of_shown. apply runFrames_status. simpl; auto. }
  split; [exact H|].
  unfold shownPanels in H. simpl in H.
  destruct H as [H|[H|[H|[H|[]]]]]; injection H as <- <-; auto.
Qed.

(** ** The scale invariant over numbers with NaN and infinities *)




Ltac unfold_ieee :=
  unfold Ieee.handBody, Ieee.handednessAt, Ieee.bind, Ieee.deref, Ieee.ret,
    Ieee.setStatus, Ieee.setPosition, Ieee.setRotationX, Ieee.setRotationY,
    Ieee.setScale.









(** ** The two models agree on finite numbers *)

Lemma Ieee_pinchDistance_agrees (thumb index : HandLandmark.t) :
  Ieee.pinchDistance (finiteLandmarkOf thumb) (finiteLandmarkOf index)
  = Ieee.Fin (pinchDistance thumb index).
Proof.
  unfold Ieee.pinchDistance, pinchDistance, finiteLandmarkOf.
  cbn [Ieee.HandLandmark.x Ieee.HandLandmark.y Ieee.sub Ieee.neg Ieee.add
       Ieee.pow2 Ieee.sqrt].
  destruct (Rlt_dec _ 0) as [Hneg|_]; [|reflexivity].
  exfalso.
  pose proof (pow2_ge_0 (HandLandmark.x thumb + - HandLandmark.x index)).
  pose proof (pow2_ge_0 (HandLandmark.y thumb + - HandLandmark.y index)).
  lra.
Qed.

Lemma Ieee_newScale_agrees (d : R) :
  Ieee.newScale (Ieee.Fin d) = Ieee.Fin (newScale d).
Proof. reflexivity. Qed.

Lemma Ieee_handBody_agrees vWidth result i lms s :
  Ieee.handBody (Ieee.Fin vWidth) (finiteResult result) i
    (map finiteLandmarkOf lms) (finiteStore s)
  = (fst (handBody vWidth result i lms s),
     finiteStore (snd (handBody vWidth result i lms s))).
Proof.
  unfold_ieee; unfold_js.
  cbn [finiteResult Ieee.handedness].
  rewrite !nth_error_map.
  generalize (nth_error lms 9); generalize (nth_error lms 4);
    generalize (nth_error lms 8).
  intros [index|] [thumb|] [palm|];
    destruct (nth_error (handedness result) i) as [[|k ks]|];
    simpl; try reflexivity.
  fold (finiteLandmarkOf thumb). fold (finiteLandmarkOf index).
  fold (pinchDistance thumb index).
  change (Ieee.sqrt _) with
    (Ieee.pinchDistance (finiteLandmarkOf thumb) (finiteLandmarkOf index)).
  rewrite Ieee_pinchDistance_agrees.
  destruct (categoryName k =? "Left")%string.
  - cbn [Ieee.lt]. destruct (Rltb (pinchDistance thumb index) 0.05);
      simpl; unfold finiteStore, finiteControl, finiteXY; simpl;
      repeat f_equal; unfold vHeight; ring.
  - destruct (categoryName k =? "Right")%string; simpl; [|reflexivity].
    rewrite Ieee_newScale_agrees.
    unfold finiteStore, finiteControl, finiteXY; simpl.
    repeat f_equal; ring.
Qed.

Lemma Ieee_forHands_agrees vWidth result hands : forall i s,
  Ieee.forHands (Ieee.Fin vWidth) (finiteResult result) i
    (map (map finiteLandmarkOf) hands) (finiteStore s)
  = (fst (forHands vWidth result i hands s),
     finiteStore (snd (forHands vWidth result i hands s))).
Proof.
  induction hands as [|lms rest IH]; intros i s; [reflexivity|].
  rewrite forHands_cons.
  change (Ieee.forHands (Ieee.Fin vWidth) (finiteResult result) i
            (map (map finiteLandmarkOf) (lms :: rest)) (finiteStore s))
    with (match Ieee.handBody (Ieee.Fin vWidth) (finiteResult result) i
                  (map finiteLandmarkOf lms) (finiteStore s) with
          | (Normal _, s1) =>
              Ieee.forHands (Ieee.Fin vWidth) (finiteResult result) (S i)
                (map (map finiteLandmarkOf) rest) s1
          | (Throw, s1) => (Throw, s1)
          end).
  rewrite Ieee_handBody_agrees.
  destruct (handBody vWidth result i lms s) as [[[]|] s1]; cbn [fst snd];
    [apply IH|reflexivity].
Qed.

Lemma Ieee_renderLoop_agrees (f : Frame) (a : AppState) :
  innerHeight f <> 0 ->
  Ieee.renderLoop (finiteFrameOf f) (finiteApp a)
  = (finiteApp (fst (renderLoop f a)), snd (renderLoop f a)).
Proof.
  intros Hh. unfold Ieee.renderLoop, renderLoop.
  cbn [finiteFrameOf Ieee.videoMounted Ieee.canvasMounted Ieee.contextAvailable
       Ieee.innerWidth Ieee.innerHeight Ieee.detection].
  destruct (negb (videoMounted f) || negb (canvasMounted f)); [reflexivity|].
  destruct (negb (contextAvailable f)); [reflexivity|].
  assert (Ew : Ieee.mul Ieee.vHeight
                 (Ieee.divide (innerWidth f) (innerHeight f))
               = Ieee.Fin (vHeight * (innerWidth f / innerHeight f))).
  { unfold Ieee.divide. destruct (Req_dec_T (innerHeight f) 0); [contradiction|].
    reflexivity. }
  rewrite Ew.
  unfold Ieee.detectedHands, detectedHands, finiteResult at 1.
  cbn [Ieee.landmarks].
  destruct (landmarks (detection f)) as [[|lms rest]|]; try reflexivity.
  cbn [option_map].
  change {| Ieee.earthControl := Ieee.control (finiteApp a);
            Ieee.statusString := "" |}
    with (finiteStore {| earthControl := control a; statusString := "" |}).
  change (map (map finiteLandmarkOf) (lms :: rest))
    with (map finiteLandmarkOf lms :: map (map finiteLandmarkOf) rest).
  cbv iota beta.
  change (map finiteLandmarkOf lms :: map (map finiteLandmarkOf) rest)
    with (map (map finiteLandmarkOf) (lms :: rest)).
  rewrite Ieee_forHands_agrees.
  destruct (forHands _ _ _ _ _) as [[[]|] s1]; reflexivity.
Qed.

(** The loop over real numbers is the loop over numbers with NaN and
    infinities, run on finite numbers: as long as the window has a height
    other than zero, the two give the same states and the same exits. *)
Lemma Ieee_runFrames_agrees (frames : list Frame) : forall a : AppState,
  Forall (fun f => innerHeight f <> 0) frames ->
  Ieee.runFrames (map finiteFrameOf frames) (finiteApp a)
  = finiteApp (runFrames frames a).
Proof.
  induction frames as [|f rest IH]; intros a Hf; [reflexivity|].
  inversion Hf as [|f' rest' Hh Hrest]; subst.
  cbn [map Ieee.runFrames runFrames].
  rewrite (Ieee_renderLoop_agrees f a Hh).
  destruct (renderLoop f a) as [a' []]; cbn [fst snd]; auto.
Qed.
